(** * Intel Tangier (Merrifield) pin multiplexing: arch/x86/cpu/tangier/pinmux.c

    A shallow embedding of the driver and the properties its description
    states about it.  The driver is 32-bit x86 code: [unsigned int], [size_t],
    [u32] and [void __iomem *] are all 32 bits wide (the source itself casts
    the register pointer with [(u32)bufcfg]), so every one of them is a [Z]
    reduced modulo [2^32] wherever the C arithmetic can wrap. *)

From Stdlib Require Import ZArith Lia Bool.
From stdpp Require Import base option list strings gmap.

Local Open Scope Z_scope.

(** ** 32-bit machine integers *)

Module Int32.

Definition modulus : Z := 2 ^ 32.

(** Conversion to [unsigned int] / [u32] / [size_t]. *)
Definition u32 (x : Z) : Z := x mod modulus.

(** Conversion to [int] / [s32] (two's complement). *)
Definition s32 (x : Z) : Z :=
  let r := x mod modulus in
  if r <? 2 ^ 31 then r else r - modulus.

(** The C operator [~] on a [u32]. *)
Definition not32 (x : Z) : Z := u32 (Z.lnot x).

Definition is_u32 (x : Z) : Prop := 0 <= x < modulus.

End Int32.

Import Int32.

(** ** Constants of the file *)

Definition BUFCFG_OFFSET : Z := 0x100.
Definition MRFLD_FAMILY_LEN : Z := 0x400.
Definition MRFLD_PINMODE_MASK : Z := 0x07.

(** ** Data model *)

(** [struct mrfld_family]; [regs] is the address held by the
    [void __iomem *] field, [0] being [NULL]. *)
Record mrfld_family := {
  family_number : Z;
  pin_base : Z;
  npins : Z;
  regs : Z
}.

(** [pin_to_bufno(f, p)]: unsigned subtraction. *)
Definition pin_to_bufno (f : mrfld_family) (p : Z) : Z := u32 (p - pin_base f).

(** [MRFLD_FAMILY(b, s, e)]: [s] and [e] are the first and the last pin of the
    family; the initialiser leaves [regs] zero. *)
Definition MRFLD_FAMILY (b s e : Z) : mrfld_family :=
  {| family_number := b; pin_base := s; npins := u32 (e - s + 1); regs := 0 |}.

(** The static table: only the SD/SDIO and I2C families. *)
Definition mrfld_families : list mrfld_family :=
  [ MRFLD_FAMILY 3 37 56;
    MRFLD_FAMILY 7 101 114 ].

(** [struct mrfld_pinctrl], the private data of the device.  [families] is the
    array the pointer designates, [nfamilies] the number of entries the loops
    are allowed to visit. *)
Record mrfld_pinctrl := {
  families : list mrfld_family;
  nfamilies : nat
}.

(** A device-tree node as the driver reads it.  The three accessors the
    driver calls are defined below; [of_offset] is the node handle printed in
    the error message of the probe loop. *)
Record ofnode := {
  of_offset : Z;
  s32_props : gmap string Z;
  bool_props : gmap string bool
}.

(** Modelled from the spec: [ofnode_read_s32_default] is defined in the
    device-model core, outside this file.  The description calls [pad-offset]
    and [mode-func] integer fields of the record that may be absent; the call
    site supplies the value to return for an absent field.  A present cell is
    32 bits wide and is returned as an [int]. *)
Definition ofnode_read_s32_default (node : ofnode) (propname : string) (def : Z) : Z :=
  match s32_props node !! propname with
  | Some cell => s32 cell
  | None => def
  end.

(** Modelled from the spec: [ofnode_read_bool] is defined in the device-model
    core, outside this file.  The description calls [protected] an optional
    boolean that defaults to false when absent. *)
Definition ofnode_read_bool (node : ofnode) (propname : string) : bool :=
  match bool_props node !! propname with
  | Some b => b
  | None => false
  end.

(** ** Hardware and log events *)

(** Arguments of one [scu_ipc_raw_command] call.  The driver passes a one-word
    input buffer ([&v], 4 bytes) and no output buffer. *)
Record scu_request := {
  scu_cmd : Z;
  scu_sub : Z;
  scu_in : Z;
  scu_inlen : Z;
  scu_outlen : Z;
  scu_dptr : Z;
  scu_sptr : Z
}.

(** The three [pr_err] messages of the file, with their arguments. *)
Inductive log_msg :=
| FailedToFindFamily (pin : Z)
| FailedToSetMode (pin : Z) (ret : Z)
| InvalidConfiguration (of_offset : Z).

Inductive event :=
| EvReadl (addr : Z) (value : Z)
| EvWritel (value : Z) (addr : Z)
| EvScuIpc (req : scu_request) (ret : Z)
| EvPrErr (msg : log_msg).

(** The machine the driver runs on: the memory-mapped registers, the private
    data of the pin controller device, and everything the driver has done so
    far, oldest event first. *)
Record machine := {
  io : gmap Z Z;
  priv : mrfld_pinctrl;
  trace : list event
}.

Definition emit (e : event) (st : machine) : machine :=
  {| io := io st; priv := priv st; trace := trace st ++ [e] |}.

(** ** A state monad for the driver code *)

Definition M (A : Type) : Type := machine -> A * machine.

#[global] Instance M_ret : MRet M := fun A (a : A) st => (a, st).
#[global] Instance M_bind : MBind M :=
  fun A B (f : A -> M B) (m : M A) st => let '(a, st') := m st in f a st'.

Definition pr_err (msg : log_msg) : M unit :=
  fun st => (tt, emit (EvPrErr msg) st).

(** [readl]: a register that was never written reads as zero. *)
Definition readl (addr : Z) : M Z :=
  fun st =>
    let value := u32 (default 0 (io st !! addr)) in
    (value, emit (EvReadl addr value) st).

Definition writel (value addr : Z) : M unit :=
  fun st =>
    (tt, emit (EvWritel value addr)
           {| io := <[addr := value]> (io st); priv := priv st; trace := trace st |}).

Definition set_priv (p : mrfld_pinctrl) : M unit :=
  fun st => (tt, {| io := io st; priv := p; trace := trace st |}).

(** Which events touch the hardware. *)
Definition is_read (e : event) : bool :=
  match e with EvReadl _ _ => true | _ => false end.
Definition is_store (e : event) : bool :=
  match e with EvWritel _ _ => true | _ => false end.
Definition is_channel (e : event) : bool :=
  match e with EvScuIpc _ _ => true | _ => false end.
Definition is_hw (e : event) : bool := is_read e || is_store e || is_channel e.

(** ** What the platform supplies

    Errno numbers, the SCU message number, the syscon identifier and the
    functions of the device model and of the SCU driver that this file calls
    are declared in headers and defined in files that are not part of the
    driver.  They are taken as parameters.  An errno number is a positive
    integer, so [-EINVAL] and [-ENOTSUPP] are never zero. *)
Class Platform := {
  EINVAL : positive;
  ENOTSUPP : positive;
  IPCMSG_INDIRECT_WRITE : Z;
  X86_SYSCON_PINCONF : Z;
  (** address of the first register range of the syscon device *)
  syscon_get_first_range : Z -> Z;
  (** return code of the device lookup; on [0] the device found is the pin
      controller, whose private data is [priv] *)
  syscon_get_by_driver_data : Z -> Z;
  (** the SCU performs the request on the registers and reports a status *)
  scu_ipc_raw_command : scu_request -> gmap Z Z -> Z * gmap Z Z
}.

Section Driver.

Context `{Platform}.

(** *** FamilyResolver: [mrfld_get_family] *)

Definition pin_in_family (family : mrfld_family) (pin : Z) : bool :=
  (pin_base family <=? pin) && (pin <? u32 (pin_base family + npins family)).

(** The [for] loop, [i] being the index and [n] the iterations left
    ([nfamilies - i]).  Reading past the array is undefined in C; the model
    stops there. *)
Fixpoint mrfld_get_family_loop (mp : mrfld_pinctrl) (pin : Z) (i n : nat)
  : option mrfld_family :=
  match n with
  | O => None
  | S n' =>
      match families mp !! i with
      | Some family =>
          if pin_in_family family pin then Some family
          else mrfld_get_family_loop mp pin (S i) n'
      | None => None
      end
  end.

Definition mrfld_get_family (mp : mrfld_pinctrl) (pin : Z) : M (option mrfld_family) :=
  match mrfld_get_family_loop mp pin 0 (nfamilies mp) with
  | Some family => mret (Some family)
  | None => pr_err (FailedToFindFamily pin);; mret None
  end.

(** *** RegisterAddressCalculator: [mrfld_get_bufcfg]

    The result is a pointer; [0] is [NULL]. *)
Definition mrfld_get_bufcfg (pinctrl : mrfld_pinctrl) (pin : Z) : M Z :=
  family ← mrfld_get_family pinctrl pin;
  match family with
  | None => mret 0
  | Some family =>
      let bufno := pin_to_bufno family pin in
      mret (u32 (regs family + BUFCFG_OFFSET + u32 (bufno * 4)))
  end.

(** *** FamilyTable construction: [mrfld_setup_families] *)

Definition set_regs (base_addr : Z) (family : mrfld_family) : mrfld_family :=
  {| family_number := family_number family;
     pin_base := pin_base family;
     npins := npins family;
     regs := u32 (base_addr + u32 (family_number family * MRFLD_FAMILY_LEN)) |}.

Fixpoint mrfld_setup_families_loop (base_addr : Z) (fams : list mrfld_family)
    (i n : nat) : list mrfld_family :=
  match n with
  | O => fams
  | S n' =>
      match fams !! i with
      | Some family =>
          mrfld_setup_families_loop base_addr (<[i := set_regs base_addr family]> fams) (S i) n'
      | None => fams
      end
  end.

Definition mrfld_setup_families (base_addr : Z) (fams : list mrfld_family) (nfam : nat)
  : list mrfld_family :=
  mrfld_setup_families_loop base_addr fams 0 nfam.

(** *** [mrfld_pinconfig_get_bufcfg]

    The C function returns a status and hands the address back through an
    out-parameter that is written on success only: [inl ret] is a failure
    with its (non-zero) status, [inr addr] is status [0] with [*bufcfg]. *)
Definition mrfld_pinconfig_get_bufcfg (pin : Z) : M (Z + Z) :=
  let ret := syscon_get_by_driver_data X86_SYSCON_PINCONF in
  if negb (ret =? 0) then mret (inl ret)
  else
    fun st =>
      let pinctrl := priv st in
      (addr ← mrfld_get_bufcfg pinctrl pin;
       if addr =? 0 then mret (inl (- Z.pos EINVAL))
       else mret (inr addr)) st.

(** *** ConfigWriter *)

(** [debug] prints nothing in a regular build and is left out. *)
Definition mrfld_pinconfig_read_and_update (bufcfg mask bits : Z) : M Z :=
  value ← readl bufcfg;
  mret (Z.lor (Z.land value (not32 mask)) (Z.land bits mask)).

Definition scu_call (req : scu_request) : M Z :=
  fun st =>
    let '(ret, io') := scu_ipc_raw_command req (io st) in
    (ret, emit (EvScuIpc req ret)
            {| io := io'; priv := priv st; trace := trace st |}).

Definition mrfld_pinconfig_protected (pin mask bits : Z) : M Z :=
  r ← mrfld_pinconfig_get_bufcfg pin;
  match r with
  | inl ret => mret ret
  | inr bufcfg =>
      v ← mrfld_pinconfig_read_and_update bufcfg mask bits;
      scu_call {| scu_cmd := IPCMSG_INDIRECT_WRITE; scu_sub := 0;
                  scu_in := v; scu_inlen := 4; scu_outlen := 0;
                  scu_dptr := u32 bufcfg; scu_sptr := 0 |}
  end.

Definition mrfld_pinconfig (pin mask bits : Z) : M Z :=
  r ← mrfld_pinconfig_get_bufcfg pin;
  match r with
  | inl ret => mret ret
  | inr bufcfg =>
      v ← mrfld_pinconfig_read_and_update bufcfg mask bits;
      writel v bufcfg;;
      mret 0
  end.

(** *** PinConfigEntry parsing and validation: [mrfld_pinctrl_cfg_pin]

    [pad_offset] and [mode] are [int]; they are converted to [unsigned int]
    and [u32] where the C code passes or combines them as such. *)
Definition mrfld_pinctrl_cfg_pin (pin_node : ofnode) : M Z :=
  let pad_offset := ofnode_read_s32_default pin_node "pad-offset" (-1) in
  if pad_offset =? -1 then mret (- Z.pos EINVAL)
  else
    let mode := ofnode_read_s32_default pin_node "mode-func" (-1) in
    if mode =? -1 then mret (- Z.pos EINVAL)
    else
      let mask := MRFLD_PINMODE_MASK in
      if negb (Z.land (u32 mode) (not32 mask) =? 0) then mret (- Z.pos ENOTSUPP)
      else
        let is_protected := ofnode_read_bool pin_node "protected" in
        ret ← (if is_protected
               then mrfld_pinconfig_protected (u32 pad_offset) mask (u32 mode)
               else mrfld_pinconfig (u32 pad_offset) mask (u32 mode));
        (if negb (ret =? 0)
         then pr_err (FailedToSetMode (u32 pad_offset) ret)
         else mret tt);;
        mret ret.

(** *** Controller: [tangier_pinctrl_probe] *)

Definition ARRAY_SIZE {A : Type} (a : list A) : nat := length a.

(** The body of [ofnode_for_each_subnode], over the subnodes in their order
    in the device tree. *)
Fixpoint tangier_pinctrl_probe_loop (subnodes : list ofnode) : M unit :=
  match subnodes with
  | [] => mret tt
  | pin_node :: rest =>
      ret ← mrfld_pinctrl_cfg_pin pin_node;
      (if negb (ret =? 0)
       then pr_err (InvalidConfiguration (of_offset pin_node))
       else mret tt);;
      tangier_pinctrl_probe_loop rest
  end.

(** [subnodes] are the children of [dev_ofnode(dev)].  The static table is
    written once, here, and the private data then designates it. *)
Definition tangier_pinctrl_probe (subnodes : list ofnode) : M Z :=
  let base_addr := syscon_get_first_range X86_SYSCON_PINCONF in
  let fams := mrfld_setup_families base_addr mrfld_families (ARRAY_SIZE mrfld_families) in
  set_priv {| families := fams; nfamilies := ARRAY_SIZE mrfld_families |};;
  tangier_pinctrl_probe_loop subnodes;;
  mret 0.

End Driver.

(** ** Well-formed family tables *)

(** Every field fits its C type and the end of the pin range does not wrap. *)
Definition family_ok (f : mrfld_family) : bool :=
  (0 <=? family_number f) && (family_number f <? modulus) &&
  (0 <=? pin_base f) && (0 <=? npins f) &&
  (pin_base f + npins f <? modulus).

Definition ranges_overlap (f g : mrfld_family) : bool :=
  (pin_base f <? pin_base g + npins g) && (pin_base g <? pin_base f + npins f) &&
  (0 <? npins f) && (0 <? npins g).

(** No two entries of the table claim the same pin. *)
Fixpoint families_disjoint (fams : list mrfld_family) : bool :=
  match fams with
  | [] => true
  | f :: rest => forallb (fun g => negb (ranges_overlap f g)) rest && families_disjoint rest
  end.

Definition table_ok (fams : list mrfld_family) : bool :=
  forallb family_ok fams && families_disjoint fams.

(** The pin range of a family as the description writes it. *)
Definition covers (f : mrfld_family) (p : Z) : Prop :=
  pin_base f <= p < pin_base f + npins f.

(** The private data the probe installs for a table and a region base. *)
Definition probed (base_addr : Z) (fams : list mrfld_family) : mrfld_pinctrl :=
  {| families := mrfld_setup_families base_addr fams (ARRAY_SIZE fams);
     nfamilies := ARRAY_SIZE fams |}.

(** The machine with some events appended to its trace. *)
Definition logged (evs : list event) (st : machine) : machine :=
  {| io := io st; priv := priv st; trace := trace st ++ evs |}.

(** ** A sample platform and sample inputs, to run the model *)

Definition edison_scu (req : scu_request) (regs : gmap Z Z) : Z * gmap Z Z :=
  if scu_cmd req =? 0x05 then (0, <[scu_dptr req := scu_in req]> regs)
  else (-5, regs).

Definition edison : Platform :=
  {| EINVAL := 22;
     ENOTSUPP := 524;
     IPCMSG_INDIRECT_WRITE := 0x05;
     X86_SYSCON_PINCONF := 2;
     syscon_get_first_range := fun _ => 0xff0c0000;
     syscon_get_by_driver_data := fun _ => 0;
     scu_ipc_raw_command := edison_scu |}.

Definition pin_entry (off : Z) (ints : list (string * Z)) (bools : list (string * bool)) : ofnode :=
  {| of_offset := off; s32_props := list_to_map ints; bool_props := list_to_map bools |}.

Definition power_on : machine :=
  {| io := ∅; priv := {| families := []; nfamilies := 0 |}; trace := [] |}.

(** The private data of the sample platform after the probe has set it up,
    and a machine in that state whose register for pin 37 holds a known
    value. *)
Definition edison_pinctrl : mrfld_pinctrl := probed 0xff0c0000 mrfld_families.

Definition booted : machine :=
  {| io := {[ 0xff0c0d00 := 0xABCD1234 ]}; priv := edison_pinctrl; trace := [] |}.

Definition sd_pin : ofnode :=
  pin_entry 1 [("pad-offset", 37); ("mode-func", 5)] [].
Definition i2c_pin : ofnode :=
  pin_entry 2 [("pad-offset", 101); ("mode-func", 2)] [("protected", true)].
Definition stray_pin : ofnode :=
  pin_entry 3 [("pad-offset", 57); ("mode-func", 1)] [].
Definition wide_mode_pin : ofnode :=
  pin_entry 4 [("pad-offset", 37); ("mode-func", 8)] [].
Definition sentinel_mode_pin : ofnode :=
  pin_entry 5 [("pad-offset", 37); ("mode-func", -1)] [].
Definition sentinel_pad_pin : ofnode :=
  pin_entry 6 [("pad-offset", 0xFFFFFFFF); ("mode-func", 3)] [].
Definition no_mode_pin : ofnode :=
  pin_entry 7 [("pad-offset", 37)] [].
Definition far_pin : ofnode :=
  pin_entry 10 [("pad-offset", 999); ("mode-func", 1)] [].

(** The register address of a pin inside its family, as [mrfld_get_bufcfg]
    computes it. *)
Definition bufcfg_of (family : mrfld_family) (pin : Z) : Z :=
  u32 (regs family + BUFCFG_OFFSET + u32 (pin_to_bufno family pin * 4)).

(** The value [mrfld_pinconfig_read_and_update] returns for a register that
    holds [value]. *)
Definition updated (value mask bits : Z) : Z :=
  Z.lor (Z.land value (not32 mask)) (Z.land bits mask).

(** What a register holds, as [readl] returns it. *)
Definition reg_value (st : machine) (addr : Z) : Z := u32 (default 0 (io st !! addr)).

(** The machine after [addr] was read and [nv] stored to it directly. *)
Definition stored (addr nv : Z) (st : machine) : machine :=
  {| io := <[addr := nv]> (io st);
     priv := priv st;
     trace := trace st ++ [EvReadl addr (reg_value st addr); EvWritel nv addr] |}.

(** The indirect-write request for [nv] at [addr], and the machine after
    [addr] was read and the request handed to the SCU. *)
Definition indirect_write `{Platform} (addr nv : Z) : scu_request :=
  {| scu_cmd := IPCMSG_INDIRECT_WRITE; scu_sub := 0;
     scu_in := nv; scu_inlen := 4; scu_outlen := 0;
     scu_dptr := u32 addr; scu_sptr := 0 |}.

Definition relayed `{Platform} (addr nv : Z) (st : machine) : machine :=
  let r := scu_ipc_raw_command (indirect_write addr nv) (io st) in
  {| io := r.2;
     priv := priv st;
     trace := trace st ++ [EvReadl addr (reg_value st addr);
                           EvScuIpc (indirect_write addr nv) r.1] |}.

(** Events that leave the registers and the channel alone. *)
Definition quiet (evs : list event) : bool := forallb (fun e => negb (is_hw e)) evs.

Definition no_store (evs : list event) : bool := forallb (fun e => negb (is_store e)) evs.
Definition no_channel (evs : list event) : bool := forallb (fun e => negb (is_channel e)) evs.

(** One turn of the probe loop. *)
Definition attempt `{Platform} (pin_node : ofnode) : M unit :=
  ret ← mrfld_pinctrl_cfg_pin pin_node;
  if negb (ret =? 0)
  then pr_err (InvalidConfiguration (of_offset pin_node))
  else mret tt.

(** The machine once the probe has set up the table and the private data. *)
Definition installed `{Platform} (st : machine) : machine :=
  {| io := io st;
     priv := probed (syscon_get_first_range X86_SYSCON_PINCONF) mrfld_families;
     trace := trace st |}.

(** A node with one integer property removed. *)
Definition without (propname : string) (node : ofnode) : ofnode :=
  {| of_offset := of_offset node;
     s32_props := delete propname (s32_props node);
     bool_props := bool_props node |}.

(** The address a hardware event goes to: the register read or stored, or
    the target of the SCU request. *)
Definition event_addr (e : event) : option Z :=
  match e with
  | EvReadl addr _ => Some addr
  | EvWritel _ addr => Some addr
  | EvScuIpc req _ => Some (scu_dptr req)
  | EvPrErr _ => None
  end.

(** [addr] is the control register of a pin of one of the entries of the
    table that the resolver visits. *)
Definition pin_register (mp : mrfld_pinctrl) (addr : Z) : Prop :=
  exists (i : nat) (f : mrfld_family) (pin : Z),
    (i < nfamilies mp)%nat /\ families mp !! i = Some f
    /\ pin_in_family f pin = true /\ addr = bufcfg_of f pin.

(** The table as the source file initialises it, before any probe. *)
Definition static_pinctrl (fams : list mrfld_family) : mrfld_pinctrl :=
  {| families := fams; nfamilies := ARRAY_SIZE fams |}.

(** The two register windows of the families of the source file, for a
    region at [base]: 20 registers from [base + 0xd00], 14 from
    [base + 0x1d00]. *)
Definition pin_window (base addr : Z) : Prop :=
  base + 0xd00 <= addr < base + 0xd50 \/ base + 0x1d00 <= addr < base + 0x1d38.

(** The sample platform with the pin controller device missing: the lookup
    fails with [-ENODEV]. *)
Definition edison_no_device : Platform :=
  {| EINVAL := 22;
     ENOTSUPP := 524;
     IPCMSG_INDIRECT_WRITE := 0x05;
     X86_SYSCON_PINCONF := 2;
     syscon_get_first_range := fun _ => 0xff0c0000;
     syscon_get_by_driver_data := fun _ => -19;
     scu_ipc_raw_command := edison_scu |}.

(** An entry with a negative [pad-offset] that is not the sentinel. *)
Definition negative_pad_pin : ofnode :=
  pin_entry 8 [("pad-offset", -2); ("mode-func", 1)] [].

(** A second direct entry for pin 37. *)
Definition sd_pin_again : ofnode :=
  pin_entry 9 [("pad-offset", 37); ("mode-func", 2)] [].

(** Unfolds the monad operations in a goal. *)
Ltac run :=
  repeat (progress (cbn [mbind mret M_bind M_ret] || unfold mbind, mret, M_bind, M_ret)).

(** * Properties *)

(** ** Machine integers *)

Lemma u32_small x : 0 <= x < modulus -> u32 x = x.
Proof. intros Hx. unfold u32. apply Z.mod_small. exact Hx. Qed.

Lemma u32_range x : 0 <= u32 x < modulus.
Proof. unfold u32, modulus. apply Z.mod_pos_bound. lia. Qed.

Lemma s32_range x : - 2 ^ 31 <= s32 x < 2 ^ 31.
Proof.
  unfold s32. pose proof (u32_range x) as Hr. unfold u32, modulus in *.
  destruct (Z.ltb_spec (x mod 2 ^ 32) (2 ^ 31)); lia.
Qed.

Lemma u32_s32 x : u32 (s32 x) = u32 x.
Proof.
  unfold s32, u32, modulus. destruct (x mod 2 ^ 32 <? 2 ^ 31).
  - apply Z.mod_mod. lia.
  - rewrite Zminus_mod, Z.mod_same, Z.sub_0_r, !Z.mod_mod by lia. reflexivity.
Qed.

Lemma s32_small x : - 2 ^ 31 <= x < 2 ^ 31 -> s32 x = x.
Proof.
  intros Hx. unfold s32, modulus.
  destruct (Z.neg_nonneg_cases x) as [Hneg|Hpos].
  - replace (x mod 2 ^ 32) with (x + 2 ^ 32).
    + destruct (Z.ltb_spec (x + 2 ^ 32) (2 ^ 31)); lia.
    + apply Z.mod_unique with (q := -1); lia.
  - rewrite Z.mod_small by lia. destruct (Z.ltb_spec x (2 ^ 31)); lia.
Qed.

(** [~mask] in 32 bits clears the same bits of a 32-bit value as the
    unbounded complement. *)
Lemma land_not32 v mask : is_u32 v -> Z.land v (not32 mask) = Z.land v (Z.lnot mask).
Proof.
  intros Hv. unfold not32, u32, modulus.
  rewrite <- Z.land_ones by lia.
  rewrite (Z.land_comm (Z.lnot mask)), Z.land_assoc.
  rewrite Z.land_ones by lia. f_equal. apply Z.mod_small. exact Hv.
Qed.

Lemma land_low3 m : 0 <= m <= 7 -> Z.land m 7 = m.
Proof.
  intros Hm. change 7 with (Z.ones 3). rewrite Z.land_ones by lia.
  apply Z.mod_small. change (2 ^ 3) with 8. lia.
Qed.

Lemma u32_split3 x :
  is_u32 x -> x = Z.lor (Z.land x (not32 MRFLD_PINMODE_MASK)) (Z.land x 7).
Proof.
  intros Hx. rewrite <- Z.land_lor_distr_r.
  change (Z.lor (not32 MRFLD_PINMODE_MASK) 7) with (Z.ones 32).
  rewrite Z.land_ones by lia. symmetry. apply Z.mod_small. exact Hx.
Qed.

(** The range test of [mrfld_pinctrl_cfg_pin], [mode & ~mask], is zero
    exactly for the modes 0..7. *)
Lemma mode_in_mask mode :
  - 2 ^ 31 <= mode < 2 ^ 31 ->
  Z.land (u32 mode) (not32 MRFLD_PINMODE_MASK) = 0 <-> 0 <= mode <= 7.
Proof.
  intros Hr. split.
  - intros Hz. pose proof (u32_range mode) as Hu.
    pose proof (u32_split3 _ Hu) as Hs. rewrite Hz, Z.lor_0_l in Hs.
    change 7 with (Z.ones 3) in Hs. rewrite Z.land_ones in Hs by lia.
    assert (Hlow : 0 <= u32 mode < 8).
    { rewrite Hs. change 8 with (2 ^ 3). apply Z.mod_pos_bound. lia. }
    unfold u32, modulus in Hlow.
    destruct (Z.neg_nonneg_cases mode) as [Hneg|Hpos].
    + replace (mode mod 2 ^ 32) with (mode + 2 ^ 32) in Hlow; [lia|].
      apply Z.mod_unique with (q := -1); lia.
    + rewrite Z.mod_small in Hlow by lia. lia.
  - intros Hm.
    assert (Hc : mode = 0 \/ mode = 1 \/ mode = 2 \/ mode = 3 \/
                 mode = 4 \/ mode = 5 \/ mode = 6 \/ mode = 7) by lia.
    repeat (destruct Hc as [->|Hc]; [reflexivity|]). by subst.
Qed.

(** On unbounded integers: no bit outside [0b111] is the same as 0..7. *)
Lemma no_bit_outside_mask mode :
  Z.land mode (Z.lnot 7) = 0 <-> 0 <= mode <= 7.
Proof.
  split.
  - intros Hz.
    assert (Hs : mode = Z.lor (Z.land mode (Z.lnot 7)) (Z.land mode 7)).
    { rewrite <- Z.land_lor_distr_r. change (Z.lor (Z.lnot 7) 7) with (-1).
      by rewrite Z.land_m1_r. }
    rewrite Hz, Z.lor_0_l in Hs. change 7 with (Z.ones 3) in Hs.
    rewrite Z.land_ones in Hs by lia.
    pose proof (Z.mod_pos_bound mode (2 ^ 3)) as Hb. change (2 ^ 3) with 8 in *. lia.
  - intros Hm.
    assert (Hc : mode = 0 \/ mode = 1 \/ mode = 2 \/ mode = 3 \/
                 mode = 4 \/ mode = 5 \/ mode = 6 \/ mode = 7) by lia.
    repeat (destruct Hc as [->|Hc]; [reflexivity|]). by subst.
Qed.

Lemma updated_spec v mask bits :
  is_u32 v -> updated v mask bits = Z.lor (Z.land v (Z.lnot mask)) (Z.land bits mask).
Proof. intros Hv. unfold updated. by rewrite land_not32. Qed.

(** Bit by bit: inside the mask the new bits, outside the old ones. *)
Lemma updated_testbit v mask bits i :
  is_u32 v -> 0 <= i ->
  Z.testbit (updated v mask bits) i
  = if Z.testbit mask i then Z.testbit bits i else Z.testbit v i.
Proof.
  intros Hv Hi. rewrite updated_spec by done.
  rewrite Z.lor_spec, !Z.land_spec, Z.lnot_spec by done.
  destruct (Z.testbit mask i), (Z.testbit bits i), (Z.testbit v i); reflexivity.
Qed.

Lemma updated_low3 v m :
  is_u32 v -> 0 <= m <= 7 -> Z.land (updated v MRFLD_PINMODE_MASK m) 7 = m.
Proof.
  intros Hv Hm. rewrite updated_spec by done. unfold MRFLD_PINMODE_MASK.
  rewrite Z.land_lor_distr_l, <- !Z.land_assoc.
  change (Z.land (Z.lnot 7) 7) with 0. change (Z.land 7 7) with 7.
  rewrite Z.land_0_r, Z.lor_0_l. by apply land_low3.
Qed.

(** ** The monad *)

Lemma logged_nil st : logged [] st = st.
Proof. destruct st as [i p t]. unfold logged. cbn. by rewrite app_nil_r. Qed.

Lemma logged_app evs evs' st : logged evs' (logged evs st) = logged (evs ++ evs') st.
Proof. unfold logged. cbn. by rewrite app_assoc. Qed.

Lemma emit_logged e st : emit e st = logged [e] st.
Proof. reflexivity. Qed.

(** ** The family table *)

Lemma pin_in_family_covers f p :
  family_ok f = true -> pin_in_family f p = true <-> covers f p.
Proof.
  unfold family_ok, pin_in_family, covers. intros Hok.
  repeat (apply andb_prop in Hok as [Hok ?]).
  rewrite u32_small by lia. rewrite andb_true_iff. lia.
Qed.

Lemma overlap_covers f g p :
  covers f p -> covers g p -> ranges_overlap f g = true.
Proof.
  unfold covers, ranges_overlap. intros Hf Hg.
  repeat (apply andb_true_intro; split); lia.
Qed.

(** The loop over indices is a search through the array, as long as
    [nfamilies] is the length of the array. *)
Lemma mrfld_get_family_loop_find mp pin pre l :
  families mp = pre ++ l ->
  mrfld_get_family_loop mp pin (length pre) (length l)
  = List.find (fun f => pin_in_family f pin) l.
Proof.
  revert pre. induction l as [|f l IH]; intros pre Hfam; [done|].
  cbn [length mrfld_get_family_loop List.find].
  rewrite Hfam, list_lookup_middle by done.
  destruct (pin_in_family f pin); [done|].
  specialize (IH (pre ++ [f])). rewrite length_app in IH. cbn in IH.
  replace (length pre + 1)%nat with (S (length pre)) in IH by lia.
  apply IH. by rewrite <- app_assoc.
Qed.

Lemma find_first_cover fams f p :
  table_ok fams = true -> f ∈ fams -> covers f p ->
  List.find (fun g => pin_in_family g p) fams = Some f.
Proof.
  unfold table_ok. induction fams as [|g fams IH]; intros Hok Hin Hcov.
  - by apply elem_of_nil in Hin.
  - apply andb_prop in Hok as [Hall Hdis]. cbn in Hall, Hdis.
    apply andb_prop in Hall as [Hg Hall]. apply andb_prop in Hdis as [Hfresh Hdis].
    cbn [List.find]. apply elem_of_cons in Hin as [->|Hin].
    + by rewrite (proj2 (pin_in_family_covers _ _ Hg) Hcov).
    + destruct (pin_in_family g p) eqn:Hgp.
      * apply (pin_in_family_covers _ _ Hg) in Hgp.
        rewrite forallb_forall in Hfresh.
        apply list_elem_of_In in Hin. specialize (Hfresh _ Hin).
        by rewrite (overlap_covers _ _ _ Hgp Hcov) in Hfresh.
      * apply IH; [|done..]. by rewrite Hall, Hdis.
Qed.

Lemma covers_unique fams (i j : nat) f g p :
  families_disjoint fams = true ->
  fams !! i = Some f -> fams !! j = Some g -> covers f p -> covers g p -> i = j.
Proof.
  revert i j. induction fams as [|h fams IH]; intros i j Hdis Hi Hj Hf Hg; [done|].
  cbn in Hdis. apply andb_prop in Hdis as [Hfresh Hdis].
  rewrite forallb_forall in Hfresh.
  destruct i as [|i], j as [|j]; cbn in Hi, Hj.
  - done.
  - injection Hi as ->. apply list_elem_of_lookup_2, list_elem_of_In in Hj.
    specialize (Hfresh _ Hj). by rewrite (overlap_covers _ _ _ Hf Hg) in Hfresh.
  - injection Hj as ->. apply list_elem_of_lookup_2, list_elem_of_In in Hi.
    specialize (Hfresh _ Hi). by rewrite (overlap_covers _ _ _ Hg Hf) in Hfresh.
  - f_equal. by eapply IH.
Qed.

Lemma find_no_cover fams p :
  forallb family_ok fams = true -> (forall g, g ∈ fams -> ~ covers g p) ->
  List.find (fun g => pin_in_family g p) fams = None.
Proof.
  induction fams as [|g fams IH]; intros Hok Hno; [done|].
  cbn in Hok. apply andb_prop in Hok as [Hg Hok]. cbn [List.find].
  destruct (pin_in_family g p) eqn:Hgp.
  - apply (pin_in_family_covers _ _ Hg) in Hgp.
    exfalso. apply (Hno g); [apply elem_of_cons; by left | done].
  - apply IH; [done|]. intros g' Hin. apply Hno. apply elem_of_cons. by right.
Qed.

(** [mrfld_setup_families] fills in [regs] and nothing else. *)
Lemma mrfld_setup_families_loop_map base pre l :
  mrfld_setup_families_loop base (map (set_regs base) pre ++ l) (length pre) (length l)
  = map (set_regs base) (pre ++ l).
Proof.
  revert pre. induction l as [|f l IH]; intros pre.
  - cbn. by rewrite !app_nil_r.
  - cbn [length mrfld_setup_families_loop].
    assert (Hlen : length pre = length (map (set_regs base) pre))
      by (symmetry; apply length_map).
    rewrite (list_lookup_middle _ _ _ _ Hlen).
    rewrite insert_app_r_alt by lia.
    replace (length pre - length (map (set_regs base) pre))%nat with 0%nat by lia.
    cbn [insert list_insert].
    specialize (IH (pre ++ [f])).
    rewrite map_app, <- app_assoc, length_app in IH. cbn in IH.
    replace (length pre + 1)%nat with (S (length pre)) in IH by lia.
    rewrite IH. by rewrite <- app_assoc.
Qed.

Lemma mrfld_setup_families_map base fams :
  mrfld_setup_families base fams (ARRAY_SIZE fams) = map (set_regs base) fams.
Proof. apply (mrfld_setup_families_loop_map base [] fams). Qed.

Section DriverFacts.

Context `{Platform}.

(** ** Resolving a pin *)

Lemma mrfld_get_family_found mp pin f st :
  mrfld_get_family_loop mp pin 0 (nfamilies mp) = Some f ->
  mrfld_get_family mp pin st = (Some f, st).
Proof. intros Hl. unfold mrfld_get_family. by rewrite Hl. Qed.

Lemma mrfld_get_family_missing mp pin st :
  mrfld_get_family_loop mp pin 0 (nfamilies mp) = None ->
  mrfld_get_family mp pin st = (None, logged [EvPrErr (FailedToFindFamily pin)] st).
Proof. intros Hl. unfold mrfld_get_family. by rewrite Hl. Qed.

Lemma mrfld_get_family_loop_whole mp pin :
  nfamilies mp = length (families mp) ->
  mrfld_get_family_loop mp pin 0 (nfamilies mp)
  = List.find (fun f => pin_in_family f pin) (families mp).
Proof. intros ->. by apply (mrfld_get_family_loop_find mp pin []). Qed.

Lemma mrfld_pinconfig_get_bufcfg_missing pin st :
  syscon_get_by_driver_data X86_SYSCON_PINCONF = 0 ->
  mrfld_get_family_loop (priv st) pin 0 (nfamilies (priv st)) = None ->
  mrfld_pinconfig_get_bufcfg pin st
  = (inl (- Z.pos EINVAL), logged [EvPrErr (FailedToFindFamily pin)] st).
Proof.
  intros Hsys Hl. unfold mrfld_pinconfig_get_bufcfg, mrfld_get_bufcfg.
  rewrite Hsys. cbn [Z.eqb negb]. run.
  by rewrite (mrfld_get_family_missing _ _ _ Hl).
Qed.

Lemma mrfld_pinconfig_get_bufcfg_found pin f st :
  syscon_get_by_driver_data X86_SYSCON_PINCONF = 0 ->
  mrfld_get_family_loop (priv st) pin 0 (nfamilies (priv st)) = Some f ->
  bufcfg_of f pin <> 0 ->
  mrfld_pinconfig_get_bufcfg pin st = (inr (bufcfg_of f pin), st).
Proof.
  intros Hsys Hl Hnz. unfold mrfld_pinconfig_get_bufcfg, mrfld_get_bufcfg.
  rewrite Hsys. cbn [Z.eqb negb]. run.
  rewrite (mrfld_get_family_found _ _ _ _ Hl).
  fold (bufcfg_of f pin). by rewrite (proj2 (Z.eqb_neq _ _) Hnz).
Qed.

Lemma mrfld_pinconfig_get_bufcfg_nodev pin st :
  syscon_get_by_driver_data X86_SYSCON_PINCONF <> 0 ->
  mrfld_pinconfig_get_bufcfg pin st
  = (inl (syscon_get_by_driver_data X86_SYSCON_PINCONF), st).
Proof.
  intros Hsys. unfold mrfld_pinconfig_get_bufcfg.
  by rewrite (proj2 (Z.eqb_neq _ _) Hsys).
Qed.

(** Every lookup of the register address either fails with a non-zero status
    and at most a log line, or yields a non-null address and changes nothing. *)
Lemma mrfld_pinconfig_get_bufcfg_cases pin st :
  (exists ret evs, mrfld_pinconfig_get_bufcfg pin st = (inl ret, logged evs st)
                   /\ ret <> 0 /\ quiet evs = true)
  \/ (exists addr, mrfld_pinconfig_get_bufcfg pin st = (inr addr, st) /\ addr <> 0).
Proof.
  destruct (Z.eq_dec (syscon_get_by_driver_data X86_SYSCON_PINCONF) 0) as [Hsys|Hsys].
  - destruct (mrfld_get_family_loop (priv st) pin 0 (nfamilies (priv st))) as [f|] eqn:Hl.
    + destruct (Z.eq_dec (bufcfg_of f pin) 0) as [Hz|Hnz].
      * left. exists (- Z.pos EINVAL), []. rewrite logged_nil. split; [|done].
        unfold mrfld_pinconfig_get_bufcfg, mrfld_get_bufcfg.
        rewrite Hsys. cbn [Z.eqb negb]. run.
        rewrite (mrfld_get_family_found _ _ _ _ Hl).
        fold (bufcfg_of f pin). by rewrite Hz.
      * right. exists (bufcfg_of f pin). split; [|done].
        by apply mrfld_pinconfig_get_bufcfg_found.
    + left. exists (- Z.pos EINVAL), [EvPrErr (FailedToFindFamily pin)].
      split; [|done]. by apply mrfld_pinconfig_get_bufcfg_missing.
  - left. exists (syscon_get_by_driver_data X86_SYSCON_PINCONF), [].
    rewrite logged_nil. split; [|done]. by apply mrfld_pinconfig_get_bufcfg_nodev.
Qed.

(** ** The two write paths *)

Lemma mrfld_pinconfig_read_and_update_run bufcfg mask bits st :
  mrfld_pinconfig_read_and_update bufcfg mask bits st
  = (updated (reg_value st bufcfg) mask bits,
     logged [EvReadl bufcfg (reg_value st bufcfg)] st).
Proof. reflexivity. Qed.

Lemma mrfld_pinconfig_run pin mask bits st :
  mrfld_pinconfig pin mask bits st
  = match mrfld_pinconfig_get_bufcfg pin st with
    | (inl ret, st') => (ret, st')
    | (inr addr, st') => (0, stored addr (updated (reg_value st' addr) mask bits) st')
    end.
Proof.
  unfold mrfld_pinconfig. run.
  destruct (mrfld_pinconfig_get_bufcfg pin st) as [[ret|addr] st']; [done|].
  rewrite mrfld_pinconfig_read_and_update_run. unfold writel, stored, emit, logged. cbn.
  by rewrite <- app_assoc.
Qed.

Lemma mrfld_pinconfig_protected_run pin mask bits st :
  mrfld_pinconfig_protected pin mask bits st
  = match mrfld_pinconfig_get_bufcfg pin st with
    | (inl ret, st') => (ret, st')
    | (inr addr, st') =>
        let nv := updated (reg_value st' addr) mask bits in
        ((scu_ipc_raw_command (indirect_write addr nv) (io st')).1, relayed addr nv st')
    end.
Proof.
  unfold mrfld_pinconfig_protected. run.
  destruct (mrfld_pinconfig_get_bufcfg pin st) as [[ret|addr] st']; [done|].
  rewrite mrfld_pinconfig_read_and_update_run. unfold scu_call, relayed, emit, logged. cbn.
  fold (indirect_write addr (updated (reg_value st' addr) mask bits)).
  destruct (scu_ipc_raw_command _ _) as [ret io']. cbn.
  by rewrite <- app_assoc.
Qed.

End DriverFacts.

(** ** The read-modify-write step *)

(** C1 (as amended).  For every 32-bit register value [v], every mask and
    every bits, the step returns [(v & ~mask) | (bits & mask)]; with the mask
    of the driver, [0b111], and a mode [m] in 0..7 that is [(v & ~0b111) | m]:
    the low three bits of the result are [m] and every bit [i >= 3] of the
    result is the bit [i] of [v]. *)
Theorem mrfld_pinconfig_read_and_update_mode
    (bufcfg v mask bits m i : Z) (st : machine) :
  is_u32 v -> io st !! bufcfg = Some v -> 0 <= m <= 7 -> 3 <= i ->
  (mrfld_pinconfig_read_and_update bufcfg mask bits st).1
    = Z.lor (Z.land v (Z.lnot mask)) (Z.land bits mask)
  /\ let r := (mrfld_pinconfig_read_and_update bufcfg MRFLD_PINMODE_MASK m st).1 in
     r = Z.lor (Z.land v (Z.lnot 7)) m
     /\ Z.land r 7 = m
     /\ Z.testbit r i = Z.testbit v i.
Proof.
  intros Hv Hio Hm Hi. rewrite !mrfld_pinconfig_read_and_update_run. cbn [fst].
  assert (Hreg : reg_value st bufcfg = v).
  { unfold reg_value. rewrite Hio. cbn. by apply u32_small. }
  rewrite Hreg. split; [by apply updated_spec|]. cbn zeta. split; [|split].
  - rewrite updated_spec by done. unfold MRFLD_PINMODE_MASK. by rewrite land_low3.
  - by apply updated_low3.
  - rewrite updated_testbit by (done || lia). unfold MRFLD_PINMODE_MASK.
    replace (Z.testbit 7 i) with false; [done|].
    symmetry. change 7 with (Z.ones 3). apply Z.ones_spec_high. lia.
Qed.

(** ** Parsing and validating one entry *)

Lemma ofnode_read_s32_default_range node propname :
  - 2 ^ 31 <= ofnode_read_s32_default node propname (-1) < 2 ^ 31.
Proof.
  unfold ofnode_read_s32_default.
  destruct (s32_props node !! propname); [apply s32_range | lia].
Qed.

Lemma ofnode_read_s32_default_absent node propname :
  s32_props node !! propname = None ->
  ofnode_read_s32_default node propname (-1) = -1.
Proof. intros Hn. unfold ofnode_read_s32_default. by rewrite Hn. Qed.

Lemma ofnode_read_s32_default_without node propname other :
  propname <> other ->
  ofnode_read_s32_default (without propname node) other (-1)
  = ofnode_read_s32_default node other (-1).
Proof.
  intros Hne. unfold ofnode_read_s32_default, without. cbn.
  by rewrite lookup_delete_ne.
Qed.

Section Validation.

Context `{Platform}.

Lemma cfg_pin_no_pad_offset node st :
  ofnode_read_s32_default node "pad-offset" (-1) = -1 ->
  mrfld_pinctrl_cfg_pin node st = (- Z.pos EINVAL, st).
Proof. unfold mrfld_pinctrl_cfg_pin. intros ->. reflexivity. Qed.

Lemma cfg_pin_no_mode node st :
  ofnode_read_s32_default node "mode-func" (-1) = -1 ->
  mrfld_pinctrl_cfg_pin node st = (- Z.pos EINVAL, st).
Proof.
  unfold mrfld_pinctrl_cfg_pin. intros ->.
  destruct (_ =? -1); reflexivity.
Qed.

Lemma cfg_pin_mode_out_of_range node st :
  ofnode_read_s32_default node "pad-offset" (-1) <> -1 ->
  ofnode_read_s32_default node "mode-func" (-1) <> -1 ->
  ~ 0 <= ofnode_read_s32_default node "mode-func" (-1) <= 7 ->
  mrfld_pinctrl_cfg_pin node st = (- Z.pos ENOTSUPP, st).
Proof.
  unfold mrfld_pinctrl_cfg_pin. intros Hp Hm Hr.
  rewrite (proj2 (Z.eqb_neq _ _) Hp), (proj2 (Z.eqb_neq _ _) Hm).
  pose proof (ofnode_read_s32_default_range node "mode-func") as Hb.
  rewrite <- (mode_in_mask _ Hb) in Hr.
  by rewrite (proj2 (Z.eqb_neq _ _) Hr).
Qed.

(** A well-formed entry reaches one of the two write paths; a failure there
    is logged with the pin and the status. *)
Lemma cfg_pin_valid node st :
  ofnode_read_s32_default node "pad-offset" (-1) <> -1 ->
  0 <= ofnode_read_s32_default node "mode-func" (-1) <= 7 ->
  mrfld_pinctrl_cfg_pin node st
  = let pin := u32 (ofnode_read_s32_default node "pad-offset" (-1)) in
    let mode := ofnode_read_s32_default node "mode-func" (-1) in
    let r := (if ofnode_read_bool node "protected"
              then mrfld_pinconfig_protected pin MRFLD_PINMODE_MASK mode
              else mrfld_pinconfig pin MRFLD_PINMODE_MASK mode) st in
    (r.1, if r.1 =? 0 then r.2
          else logged [EvPrErr (FailedToSetMode pin r.1)] r.2).
Proof.
  unfold mrfld_pinctrl_cfg_pin. intros Hp Hr.
  rewrite (proj2 (Z.eqb_neq _ _) Hp).
  assert (Hm : ofnode_read_s32_default node "mode-func" (-1) <> -1) by lia.
  rewrite (proj2 (Z.eqb_neq _ _) Hm).
  pose proof (ofnode_read_s32_default_range node "mode-func") as Hb.
  rewrite (proj2 (mode_in_mask _ Hb) Hr). cbn [Z.eqb negb].
  rewrite (u32_small (ofnode_read_s32_default node "mode-func" (-1)))
    by (unfold modulus; lia).
  run. cbn zeta.
  destruct (ofnode_read_bool node "protected");
    [destruct (mrfld_pinconfig_protected _ _ _ st) as [ret st']
    |destruct (mrfld_pinconfig _ _ _ st) as [ret st']];
    cbn [fst snd]; by destruct (ret =? 0).
Qed.

End Validation.

Lemma quiet_no_store evs : quiet evs = true -> no_store evs = true.
Proof.
  unfold quiet, no_store. rewrite !forallb_forall. intros Hq e He.
  specialize (Hq e He). by destruct e.
Qed.

Lemma quiet_no_channel evs : quiet evs = true -> no_channel evs = true.
Proof.
  unfold quiet, no_channel. rewrite !forallb_forall. intros Hq e He.
  specialize (Hq e He). by destruct e.
Qed.

Lemma no_store_app evs evs' : no_store (evs ++ evs') = no_store evs && no_store evs'.
Proof. apply forallb_app. Qed.

Lemma no_channel_app evs evs' : no_channel (evs ++ evs') = no_channel evs && no_channel evs'.
Proof. apply forallb_app. Qed.

Section Entries.

Context `{Platform}.

(** What one entry adds to the trace: never a direct store on the protected
    path, never a channel request on the direct path; the private data is not
    touched. *)
Lemma cfg_pin_events node st :
  exists evs,
    trace (mrfld_pinctrl_cfg_pin node st).2 = trace st ++ evs
    /\ priv (mrfld_pinctrl_cfg_pin node st).2 = priv st
    /\ (if ofnode_read_bool node "protected" then no_store evs else no_channel evs) = true.
Proof.
  assert (Hnone : forall ret, mrfld_pinctrl_cfg_pin node st = (ret, st) ->
    exists evs, trace (mrfld_pinctrl_cfg_pin node st).2 = trace st ++ evs
      /\ priv (mrfld_pinctrl_cfg_pin node st).2 = priv st
      /\ (if ofnode_read_bool node "protected" then no_store evs else no_channel evs) = true).
  { intros ret ->. exists []. rewrite app_nil_r. repeat split; by destruct (ofnode_read_bool _ _). }
  destruct (Z.eq_dec (ofnode_read_s32_default node "pad-offset" (-1)) (-1)) as [Hp|Hp].
  { eapply Hnone. by apply cfg_pin_no_pad_offset. }
  destruct (Z.eq_dec (ofnode_read_s32_default node "mode-func" (-1)) (-1)) as [Hm|Hm].
  { eapply Hnone. by apply cfg_pin_no_mode. }
  destruct (decide (0 <= ofnode_read_s32_default node "mode-func" (-1) <= 7)) as [Hr|Hr].
  2: { eapply Hnone. by apply cfg_pin_mode_out_of_range. }
  clear Hnone. rewrite (cfg_pin_valid _ _ Hp Hr). cbn zeta.
  set (pin := u32 _). set (mode := ofnode_read_s32_default node "mode-func" (-1)).
  destruct (ofnode_read_bool node "protected").
  - rewrite mrfld_pinconfig_protected_run.
    destruct (mrfld_pinconfig_get_bufcfg_cases pin st)
      as [(ret & evs & -> & Hret & Hq)|(addr & -> & Hnz)]; cbn [fst snd].
    + rewrite (proj2 (Z.eqb_neq _ _) Hret). rewrite logged_app.
      eexists. split; [reflexivity|]. split; [reflexivity|].
      rewrite no_store_app, (quiet_no_store _ Hq). done.
    + destruct (_ =? 0).
      * eexists. split; [reflexivity|]. split; [reflexivity|]. done.
      * eexists. split; [|split; [done|]].
        -- unfold logged, relayed. cbn. by rewrite <- app_assoc.
        -- done.
  - rewrite mrfld_pinconfig_run.
    destruct (mrfld_pinconfig_get_bufcfg_cases pin st)
      as [(ret & evs & -> & Hret & Hq)|(addr & -> & Hnz)]; cbn [fst snd].
    + rewrite (proj2 (Z.eqb_neq _ _) Hret). rewrite logged_app.
      eexists. split; [reflexivity|]. split; [reflexivity|].
      rewrite no_channel_app, (quiet_no_channel _ Hq). done.
    + cbn [Z.eqb]. eexists. split; [reflexivity|]. split; [reflexivity|]. done.
Qed.

(** An entry without one of the two mandatory fields. *)
Lemma cfg_pin_absent node st :
  s32_props node !! "pad-offset" = None \/ s32_props node !! "mode-func" = None ->
  mrfld_pinctrl_cfg_pin node st = (- Z.pos EINVAL, st).
Proof.
  intros [Hn|Hn].
  - apply cfg_pin_no_pad_offset. by apply ofnode_read_s32_default_absent.
  - apply cfg_pin_no_mode. by apply ofnode_read_s32_default_absent.
Qed.

(** C5 (as amended).  For every entry whose [pad-offset] is present and not
    -1 and whose mode is not -1 and has a bit set outside [0b111] (8, for
    one), processing the entry returns [-ENOTSUPP] and leaves the machine as
    it was: no register read, no register write, no channel request. *)
Theorem cfg_pin_unsupported_mode (node : ofnode) (st : machine) :
  let pad_offset := ofnode_read_s32_default node "pad-offset" (-1) in
  let mode := ofnode_read_s32_default node "mode-func" (-1) in
  pad_offset <> -1 -> mode <> -1 -> Z.land mode (Z.lnot 7) <> 0 ->
  mrfld_pinctrl_cfg_pin node st = (- Z.pos ENOTSUPP, st).
Proof.
  intros pad_offset mode Hp Hm Hbits.
  apply cfg_pin_mode_out_of_range; [done..|].
  by rewrite <- no_bit_outside_mask.
Qed.

(** C6.  An entry that lacks [pad-offset] or lacks [mode-func] is rejected
    with [-EINVAL]; nothing is configured in its place and the machine
    (registers, channel, even the log) is left as it was. *)
Theorem cfg_pin_missing_field (node : ofnode) (st : machine) :
  s32_props node !! "pad-offset" = None \/ s32_props node !! "mode-func" = None ->
  mrfld_pinctrl_cfg_pin node st = (- Z.pos EINVAL, st)
  /\ io (mrfld_pinctrl_cfg_pin node st).2 = io st
  /\ trace (mrfld_pinctrl_cfg_pin node st).2 = trace st.
Proof. intros Hn. by rewrite (cfg_pin_absent _ _ Hn). Qed.

(** C10.  An entry in which [pad-offset] or [mode-func] is present and reads
    as -1 gets the treatment of an entry without that field: [-EINVAL] and
    an untouched machine, so no family lookup takes place (nothing is
    logged) and the status is not [-ENOTSUPP]. *)
Theorem cfg_pin_minus_one_is_missing
    (node : ofnode) (propname : string) (cell : Z) (st : machine) :
  propname = "pad-offset" \/ propname = "mode-func" ->
  s32_props node !! propname = Some cell -> s32 cell = -1 ->
  mrfld_pinctrl_cfg_pin node st = (- Z.pos EINVAL, st)
  /\ mrfld_pinctrl_cfg_pin node st = mrfld_pinctrl_cfg_pin (without propname node) st
  /\ (EINVAL <> ENOTSUPP -> (mrfld_pinctrl_cfg_pin node st).1 <> - Z.pos ENOTSUPP).
Proof.
  intros Hname Hcell Hval.
  assert (Hread : ofnode_read_s32_default node propname (-1) = -1).
  { unfold ofnode_read_s32_default. by rewrite Hcell. }
  assert (Hrun : mrfld_pinctrl_cfg_pin node st = (- Z.pos EINVAL, st)).
  { destruct Hname as [->| ->];
      [by apply cfg_pin_no_pad_offset | by apply cfg_pin_no_mode]. }
  split; [done|]. split.
  - rewrite Hrun. symmetry. apply cfg_pin_absent.
    unfold without. cbn. destruct Hname as [->| ->]; [left|right]; apply lookup_delete_eq.
  - rewrite Hrun. cbn. intros Hne Heq. apply Hne. lia.
Qed.

(** C3.  The [protected] flag alone selects the write path.  It reads as
    false when absent.  An entry whose flag reads true never causes a direct
    store, an entry whose flag reads false never causes a channel request.
    For a well-formed entry whose pin resolves to the register [addr]: with
    the flag true the new value goes to the SCU in one indirect-write request
    for [addr] (the outcome is the status of the SCU, logged when not zero);
    with the flag false or absent it is stored to [addr] directly. *)
Theorem cfg_pin_write_path (node : ofnode) (f : mrfld_family) (st : machine) :
  let pad_offset := ofnode_read_s32_default node "pad-offset" (-1) in
  let mode := ofnode_read_s32_default node "mode-func" (-1) in
  let pin := u32 pad_offset in
  let addr := bufcfg_of f pin in
  let nv := updated (reg_value st addr) MRFLD_PINMODE_MASK mode in
  let status := (scu_ipc_raw_command (indirect_write addr nv) (io st)).1 in
  (bool_props node !! "protected" = None -> ofnode_read_bool node "protected" = false)
  /\ (exists evs,
        trace (mrfld_pinctrl_cfg_pin node st).2 = trace st ++ evs
        /\ (if ofnode_read_bool node "protected"
            then no_store evs else no_channel evs) = true)
  /\ (pad_offset <> -1 -> 0 <= mode <= 7 ->
      syscon_get_by_driver_data X86_SYSCON_PINCONF = 0 ->
      mrfld_get_family_loop (priv st) pin 0 (nfamilies (priv st)) = Some f ->
      addr <> 0 ->
      mrfld_pinctrl_cfg_pin node st
      = if ofnode_read_bool node "protected"
        then (status,
              if status =? 0 then relayed addr nv st
              else logged [EvPrErr (FailedToSetMode pin status)] (relayed addr nv st))
        else (0, stored addr nv st)).
Proof.
  intros pad_offset mode pin addr nv status. split; [|split].
  - intros Habs. unfold ofnode_read_bool. by rewrite Habs.
  - destruct (cfg_pin_events node st) as (evs & Htr & _ & Hev). by exists evs.
  - intros Hp Hr Hsys Hfam Hnz. rewrite (cfg_pin_valid _ _ Hp Hr). cbn zeta.
    fold pad_offset mode pin.
    destruct (ofnode_read_bool node "protected").
    + rewrite mrfld_pinconfig_protected_run.
      by rewrite (mrfld_pinconfig_get_bufcfg_found _ _ _ Hsys Hfam Hnz).
    + rewrite mrfld_pinconfig_run.
      by rewrite (mrfld_pinconfig_get_bufcfg_found _ _ _ Hsys Hfam Hnz).
Qed.

(** C9.  For the same pin, mask, bits and machine the two paths fail alike
    (same status, same log lines, no hardware access) or agree on the
    register: both read [addr] and compute the same new value [nv]; the
    direct path stores [nv] to [addr], the protected path hands the SCU an
    indirect write of [nv] to [addr]. *)
Theorem write_paths_agree (pin mask bits : Z) (st : machine) :
  (exists ret evs,
      ret <> 0 /\ quiet evs = true
      /\ mrfld_pinconfig pin mask bits st = (ret, logged evs st)
      /\ mrfld_pinconfig_protected pin mask bits st = (ret, logged evs st))
  \/ (exists addr nv,
        addr <> 0
        /\ nv = Z.lor (Z.land (reg_value st addr) (not32 mask)) (Z.land bits mask)
        /\ mrfld_pinconfig pin mask bits st
           = (0, {| io := <[addr := nv]> (io st);
                    priv := priv st;
                    trace := trace st ++ [EvReadl addr (reg_value st addr);
                                          EvWritel nv addr] |})
        /\ let req := {| scu_cmd := IPCMSG_INDIRECT_WRITE; scu_sub := 0;
                         scu_in := nv; scu_inlen := 4; scu_outlen := 0;
                         scu_dptr := u32 addr; scu_sptr := 0 |} in
           let r := scu_ipc_raw_command req (io st) in
           mrfld_pinconfig_protected pin mask bits st
           = (r.1, {| io := r.2;
                      priv := priv st;
                      trace := trace st ++ [EvReadl addr (reg_value st addr);
                                            EvScuIpc req r.1] |})).
Proof.
  rewrite mrfld_pinconfig_run, mrfld_pinconfig_protected_run.
  destruct (mrfld_pinconfig_get_bufcfg_cases pin st)
    as [(ret & evs & -> & Hret & Hq)|(addr & -> & Hnz)].
  - left. by exists ret, evs.
  - right. exists addr, (updated (reg_value st addr) mask bits). by repeat split.
Qed.

End Entries.

(** ** The configuration pass *)

Section Pass.

Context `{Platform}.

Lemma attempt_run n st :
  attempt n st
  = (tt, let r := mrfld_pinctrl_cfg_pin n st in
         if r.1 =? 0 then r.2
         else logged [EvPrErr (InvalidConfiguration (of_offset n))] r.2).
Proof.
  unfold attempt. run. destruct (mrfld_pinctrl_cfg_pin n st) as [ret st'].
  cbn [fst snd]. by destruct (ret =? 0).
Qed.

Lemma probe_loop_cons n rest st :
  tangier_pinctrl_probe_loop (n :: rest) st
  = tangier_pinctrl_probe_loop rest (attempt n st).2.
Proof.
  cbn [tangier_pinctrl_probe_loop]. unfold attempt. run.
  destruct (mrfld_pinctrl_cfg_pin n st) as [ret st'].
  by destruct (negb (ret =? 0)).
Qed.

Lemma probe_loop_app l1 l2 st :
  tangier_pinctrl_probe_loop (l1 ++ l2) st
  = tangier_pinctrl_probe_loop l2 (tangier_pinctrl_probe_loop l1 st).2.
Proof.
  revert st. induction l1 as [|n l1 IH]; intros st; [done|].
  cbn [app]. by rewrite !probe_loop_cons, IH.
Qed.

Lemma probe_loop_fold nodes st :
  tangier_pinctrl_probe_loop nodes st
  = (tt, fold_left (fun s n => (attempt n s).2) nodes st).
Proof.
  revert st. induction nodes as [|n nodes IH]; intros st; [done|].
  by rewrite probe_loop_cons, IH.
Qed.

Lemma probe_run nodes st :
  tangier_pinctrl_probe nodes st
  = (0, (tangier_pinctrl_probe_loop nodes (installed st)).2).
Proof.
  unfold tangier_pinctrl_probe, set_priv, installed, probed. run.
  by destruct (tangier_pinctrl_probe_loop nodes _).
Qed.

Lemma attempt_priv n st : priv (attempt n st).2 = priv st.
Proof.
  rewrite attempt_run. cbn [snd].
  destruct (cfg_pin_events n st) as (evs & _ & Hpriv & _).
  by destruct (_ =? 0).
Qed.

Lemma probe_loop_priv nodes st :
  priv (tangier_pinctrl_probe_loop nodes st).2 = priv st.
Proof.
  revert st. induction nodes as [|n nodes IH]; intros st; [done|].
  by rewrite probe_loop_cons, IH, attempt_priv.
Qed.

(** C7.  The pass returns 0 for every sequence of entries.  It runs the
    entries in their order, one turn of the loop each; whatever the outcome
    of an entry (zero or not, the only difference being one more log line),
    the pass goes on with the entries after it. *)
Theorem tangier_pinctrl_probe_best_effort
    (nodes done rest : list ofnode) (n : ofnode) (st : machine) :
  (tangier_pinctrl_probe nodes st).1 = 0
  /\ (tangier_pinctrl_probe nodes st).2
     = fold_left (fun s e => (attempt e s).2) nodes (installed st)
  /\ let before := (tangier_pinctrl_probe_loop done (installed st)).2 in
     let r := mrfld_pinctrl_cfg_pin n before in
     let after :=
       if r.1 =? 0 then r.2
       else logged [EvPrErr (InvalidConfiguration (of_offset n))] r.2 in
     tangier_pinctrl_probe (done ++ n :: rest) st
     = (0, (tangier_pinctrl_probe_loop rest after).2).
Proof.
  rewrite !probe_run. cbn [fst snd]. split; [done|]. split.
  - by rewrite probe_loop_fold.
  - cbn zeta. by rewrite probe_loop_app, probe_loop_cons, attempt_run.
Qed.

(** ** Resolution and addresses through the driver *)

(** C4.  In a table whose ranges are pairwise disjoint, every pin [p] inside
    the range of a family [f] resolves to [f], and [f] is the only entry of
    the table that covers [p].  Every pin [q] that no family covers resolves
    to nothing; that holds for the pin [b] just below or just above the
    range of [f], which [f] itself never covers, as soon as no neighbour
    covers it.  For an entry naming any pin [q] outside all ranges the
    outcome stays with that entry: [-EINVAL] and log lines, no hardware
    access, and the pass goes on with the next entry and still returns 0. *)
Theorem mrfld_get_family_resolves
    (mp : mrfld_pinctrl) (i j : nat) (f g : mrfld_family) (p q b : Z)
    (node : ofnode) (rest : list ofnode) (st : machine) :
  table_ok (families mp) = true ->
  nfamilies mp = length (families mp) ->
  families mp !! i = Some f ->
  covers f p ->
  Forall (fun h => ~ covers h q) (families mp) ->
  mrfld_get_family mp p st = (Some f, st)
  /\ (families mp !! j = Some g -> covers g p -> j = i)
  /\ mrfld_get_family mp q st = (None, logged [EvPrErr (FailedToFindFamily q)] st)
  /\ (b = pin_base f - 1 \/ b = pin_base f + npins f ->
      ~ covers f b
      /\ (Forall (fun h => ~ covers h b) (families mp) ->
          mrfld_get_family mp b st
          = (None, logged [EvPrErr (FailedToFindFamily b)] st)))
  /\ (priv st = mp ->
      syscon_get_by_driver_data X86_SYSCON_PINCONF = 0 ->
      ofnode_read_s32_default node "pad-offset" (-1) <> -1 ->
      u32 (ofnode_read_s32_default node "pad-offset" (-1)) = q ->
      0 <= ofnode_read_s32_default node "mode-func" (-1) <= 7 ->
      let missing := [EvPrErr (FailedToFindFamily q);
                      EvPrErr (FailedToSetMode q (- Z.pos EINVAL))] in
      mrfld_pinctrl_cfg_pin node st = (- Z.pos EINVAL, logged missing st)
      /\ tangier_pinctrl_probe_loop (node :: rest) st
         = tangier_pinctrl_probe_loop rest
             (logged (missing ++ [EvPrErr (InvalidConfiguration (of_offset node))]) st)
      /\ (tangier_pinctrl_probe (node :: rest) st).1 = 0).
Proof.
  intros Hok Hlen Hi Hp Hnone.
  assert (Hokall : forallb family_ok (families mp) = true).
  { unfold table_ok in Hok. by apply andb_prop in Hok as [? _]. }
  assert (Hmissing : forall pin,
             Forall (fun h => ~ covers h pin) (families mp) ->
             mrfld_get_family_loop mp pin 0 (nfamilies mp) = None).
  { intros pin Hpin. rewrite mrfld_get_family_loop_whole by done.
    apply find_no_cover; [done|]. by apply Forall_forall. }
  pose proof (Hmissing q Hnone) as Hmiss.
  split; [|split; [|split; [|split]]].
  - apply mrfld_get_family_found. rewrite mrfld_get_family_loop_whole by done.
    apply find_first_cover; [done| |done]. by eapply list_elem_of_lookup_2.
  - intros Hj Hg. unfold table_ok in Hok. apply andb_prop in Hok as [_ Hdis].
    by eapply covers_unique.
  - by apply mrfld_get_family_missing.
  - intros Hb. split.
    + unfold covers. destruct Hb as [-> | ->]; lia.
    + intros Hfree. apply mrfld_get_family_missing. by apply Hmissing.
  - intros Hpriv Hsys Hpad Hpin Hmode. cbn zeta.
    assert (Hcfg : mrfld_pinctrl_cfg_pin node st
                   = (- Z.pos EINVAL,
                      logged [EvPrErr (FailedToFindFamily q);
                              EvPrErr (FailedToSetMode q (- Z.pos EINVAL))] st)).
    { rewrite (cfg_pin_valid _ _ Hpad Hmode). cbn zeta. rewrite Hpin.
      destruct (ofnode_read_bool node "protected");
        [rewrite mrfld_pinconfig_protected_run | rewrite mrfld_pinconfig_run];
        (rewrite mrfld_pinconfig_get_bufcfg_missing by (done || by rewrite Hpriv));
        cbn [fst snd Z.eqb Z.opp]; by rewrite logged_app. }
    split; [done|]. split.
    + rewrite probe_loop_cons, attempt_run, Hcfg. cbn [fst snd Z.eqb Z.opp].
      by rewrite logged_app.
    + by rewrite probe_run.
Qed.

Lemma families_probed base fams :
  families (probed base fams) = map (set_regs base) fams.
Proof. apply mrfld_setup_families_map. Qed.

Lemma lookup_map_set_regs base fams (i : nat) :
  map (set_regs base) fams !! i = set_regs base <$> fams !! i.
Proof.
  revert i. induction fams as [|g fams IH]; intros [|i]; cbn; auto.
Qed.

Lemma forallb_family_ok_set_regs base fams :
  forallb family_ok (map (set_regs base) fams) = forallb family_ok fams.
Proof. induction fams as [|g fams IH]; [done|]. cbn. by rewrite IH. Qed.

Lemma families_disjoint_set_regs base fams :
  families_disjoint (map (set_regs base) fams) = families_disjoint fams.
Proof.
  induction fams as [|g fams IH]; [done|]. cbn. rewrite IH. f_equal.
  clear IH. induction fams as [|g' fams IH]; [done|]. cbn. by rewrite IH.
Qed.

Lemma table_ok_probed base fams :
  table_ok (families (probed base fams)) = table_ok fams.
Proof.
  rewrite families_probed. unfold table_ok.
  by rewrite forallb_family_ok_set_regs, families_disjoint_set_regs.
Qed.

(** The address of a covered pin, when the address fits 32 bits. *)
Lemma mrfld_get_bufcfg_covered base fams (i : nat) f p st :
  table_ok fams = true -> fams !! i = Some f -> covers f p -> 0 <= base ->
  base + family_number f * 1024 + 0x100 + (p - pin_base f) * 4 < modulus ->
  mrfld_get_bufcfg (probed base fams) p st
  = (base + family_number f * 1024 + 0x100 + (p - pin_base f) * 4, st).
Proof.
  intros Hok Hi Hcov Hbase Hfit.
  assert (Hfok : family_ok f = true).
  { unfold table_ok in Hok. apply andb_prop in Hok as [Hall _].
    rewrite forallb_forall in Hall. apply Hall.
    apply list_elem_of_In. by eapply list_elem_of_lookup_2. }
  unfold family_ok in Hfok. repeat (apply andb_prop in Hfok as [Hfok ?]).
  unfold covers in Hcov.
  assert (Hfam : mrfld_get_family (probed base fams) p st = (Some (set_regs base f), st)).
  { apply mrfld_get_family_found.
    rewrite mrfld_get_family_loop_whole
      by (rewrite families_probed; cbn; by rewrite length_map).
    apply find_first_cover; [by rewrite table_ok_probed| |done].
    rewrite families_probed. eapply list_elem_of_lookup_2.
    rewrite lookup_map_set_regs, Hi. done. }
  unfold mrfld_get_bufcfg. run. rewrite Hfam. f_equal.
  unfold pin_to_bufno, set_regs, BUFCFG_OFFSET, MRFLD_FAMILY_LEN. cbn [regs pin_base].
  unfold modulus in *.
  rewrite (u32_small (p - pin_base f)) by (unfold modulus; lia).
  rewrite (u32_small ((p - pin_base f) * 4)) by (unfold modulus; lia).
  rewrite (u32_small (family_number f * 1024)) by (unfold modulus; lia).
  rewrite (u32_small (base + family_number f * 1024)) by (unfold modulus; lia).
  apply u32_small. unfold modulus. lia.
Qed.

(** C2.  After the table is set up for the region at [base], a pin [p] in
    the range of a family [f] of the table has its control register at
    [base + family_number * 1024 + 0x100 + (p - pin_base) * 4], provided that
    address fits the 32-bit address space.  The family's own base address is
    [base + family_number * 1024]; its first pin sits 0x100 above it and each
    further pin 4 above the one before. *)
Theorem mrfld_get_bufcfg_address
    (base : Z) (fams : list mrfld_family) (i : nat) (f : mrfld_family) (p : Z)
    (st : machine) :
  table_ok fams = true -> fams !! i = Some f -> covers f p -> 0 <= base ->
  base + family_number f * 1024 + 0x100 + (p - pin_base f) * 4 < modulus ->
  let mp := probed base fams in
  let base_address := base + family_number f * 1024 in
  mrfld_get_bufcfg mp p st
    = (base + family_number f * 1024 + 0x100 + (p - pin_base f) * 4, st)
  /\ (exists g, families mp !! i = Some g /\ regs g = base_address
                /\ pin_base g = pin_base f /\ npins g = npins f)
  /\ mrfld_get_bufcfg mp (pin_base f) st = (base_address + 0x100, st)
  /\ (pin_base f < p ->
      (mrfld_get_bufcfg mp p st).1 = (mrfld_get_bufcfg mp (p - 1) st).1 + 4).
Proof.
  intros Hok Hi Hcov Hbase Hfit mp base_address. unfold mp, base_address.
  assert (Hfok : family_ok f = true).
  { unfold table_ok in Hok. apply andb_prop in Hok as [Hall _].
    rewrite forallb_forall in Hall. apply Hall.
    apply list_elem_of_In. by eapply list_elem_of_lookup_2. }
  unfold family_ok in Hfok. repeat (apply andb_prop in Hfok as [Hfok ?]).
  pose proof Hcov as Hcov'. unfold covers in Hcov'.
  split; [by eapply mrfld_get_bufcfg_covered|]. split; [|split].
  - exists (set_regs base f). rewrite families_probed, lookup_map_set_regs, Hi.
    split; [done|]. split; [|done].
    unfold set_regs, MRFLD_FAMILY_LEN. cbn [regs]. unfold modulus in *.
    rewrite (u32_small (family_number f * 1024)) by (unfold modulus; lia).
    apply u32_small. unfold modulus. lia.
  - rewrite (mrfld_get_bufcfg_covered base fams i f (pin_base f) st);
      [f_equal; lia|done|done| |done|unfold modulus in *; lia].
    unfold covers. lia.
  - intros Hlt.
    rewrite (mrfld_get_bufcfg_covered base fams i f p st) by done.
    rewrite (mrfld_get_bufcfg_covered base fams i f (p - 1) st);
      [cbn; lia|done|done| |done|unfold modulus in *; lia].
    unfold covers. lia.
Qed.

(** C8 (as amended).  The probe installs exactly two families: A, pins 37
    through 56 (20 pins), based at region + 3 * 1024, and B, pins 101 through
    114, based at region + 7 * 1024.  The register of pin 37 is at
    region + 3 * 1024 + 0x100, that of pin 101 at region + 7 * 1024 + 0x100. *)
Theorem mrfld_families_table (nodes : list ofnode) (p : Z) (st : machine) :
  let base := syscon_get_first_range X86_SYSCON_PINCONF in
  let A := {| family_number := 3; pin_base := 37; npins := 20;
              regs := base + 3 * 1024 |} in
  let B := {| family_number := 7; pin_base := 101; npins := 14;
              regs := base + 7 * 1024 |} in
  let mp := priv (tangier_pinctrl_probe nodes st).2 in
  0 <= base -> base + 7 * 1024 + 0x100 < modulus ->
  mp = {| families := [A; B]; nfamilies := 2 |}
  /\ (mrfld_get_family_loop mp p 0 (nfamilies mp) = Some A <-> 37 <= p <= 56)
  /\ (mrfld_get_family_loop mp p 0 (nfamilies mp) = Some B <-> 101 <= p <= 114)
  /\ mrfld_get_bufcfg mp 37 st = (base + 3 * 1024 + 0x100, st)
  /\ mrfld_get_bufcfg mp 101 st = (base + 7 * 1024 + 0x100, st).
Proof.
  intros base A B mp Hbase Hfit.
  assert (Hmp : mp = {| families := [A; B]; nfamilies := 2 |}).
  { unfold mp. rewrite probe_run. cbn [snd]. rewrite probe_loop_priv.
    unfold installed. cbn [priv]. fold base. unfold probed. cbn.
    unfold A, B, set_regs, MRFLD_FAMILY_LEN. cbn. unfold modulus in *.
    change (u32 (3 * 1024)) with 3072. change (u32 (7 * 1024)) with 7168.
    rewrite !u32_small by (unfold modulus; lia). done. }
  split; [done|]. rewrite Hmp. cbn [nfamilies].
  assert (HAB : A <> B) by (unfold A, B; congruence).
  unfold modulus in *.
  split; [|split; [|split]].
  - cbn. unfold pin_in_family. cbn [pin_base npins A B].
    change (u32 (37 + 20)) with 57. change (u32 (101 + 14)) with 115.
    destruct (Z.leb_spec 37 p), (Z.ltb_spec p 57), (Z.leb_spec 101 p), (Z.ltb_spec p 115);
      cbn; split; intros; try lia; congruence.
  - cbn. unfold pin_in_family. cbn [pin_base npins A B].
    change (u32 (37 + 20)) with 57. change (u32 (101 + 14)) with 115.
    destruct (Z.leb_spec 37 p), (Z.ltb_spec p 57), (Z.leb_spec 101 p), (Z.ltb_spec p 115);
      cbn; split; intros; try lia; congruence.
  - unfold mrfld_get_bufcfg, mrfld_get_family. run. cbn. f_equal.
    unfold pin_to_bufno. cbn [pin_base].
    change (u32 (u32 (37 - 37) * 4)) with 0. rewrite Z.add_0_r.
    apply u32_small. unfold modulus. lia.
  - unfold mrfld_get_bufcfg, mrfld_get_family. run. cbn. f_equal.
    unfold pin_to_bufno. cbn [pin_base].
    change (u32 (u32 (101 - 101) * 4)) with 0. rewrite Z.add_0_r.
    apply u32_small. unfold modulus. lia.
Qed.

End Pass.

(** * Runs on the sample platform *)

(** The register of pin 37 holds 0xABCD1234; with the mask of the driver and
    mode 5 the step returns 0xABCD1235. *)
Lemma read_and_update_mode_run :
  is_u32 0xABCD1234
  /\ (mrfld_pinconfig_read_and_update 0xff0c0d00 MRFLD_PINMODE_MASK 5 booted).1
     = 0xABCD1235
  /\ Z.testbit
       (mrfld_pinconfig_read_and_update 0xff0c0d00 MRFLD_PINMODE_MASK 5 booted).1 4
     = Z.testbit 0xABCD1234 4.
Proof.
  assert (Hv : is_u32 0xABCD1234) by (unfold is_u32, modulus; lia).
  destruct (mrfld_pinconfig_read_and_update_mode
              0xff0c0d00 0xABCD1234 MRFLD_PINMODE_MASK 5 5 4 booted)
    as (_ & Hr & _ & Hbit); [exact Hv | reflexivity | lia | lia |].
  split; [exact Hv|]. split; [exact Hr | exact Hbit].
Defined.

(** With another mask the same call does not return [(v & ~0b111) | m]:
    mask 0 leaves the register value as it is. *)
Lemma read_and_update_mask_zero :
  reg_value booted 0xff0c0d00 = 0xABCD1234
  /\ (mrfld_pinconfig_read_and_update 0xff0c0d00 0 5 booted).1 = 0xABCD1234
  /\ (mrfld_pinconfig_read_and_update 0xff0c0d00 0 5 booted).1
     <> Z.lor (Z.land 0xABCD1234 (Z.lnot 7)) 5
  /\ Z.land (mrfld_pinconfig_read_and_update 0xff0c0d00 0 5 booted).1 7 <> 5.
Proof. vm_compute. repeat split; discriminate. Qed.

(** Pin 38 of the sample table: second register of family 3. *)
Lemma mrfld_get_bufcfg_address_run :
  covers (MRFLD_FAMILY 3 37 56) 38
  /\ mrfld_get_bufcfg edison_pinctrl 38 booted
     = (0xff0c0000 + 3 * 1024 + 0x100 + (38 - 37) * 4, booted)
  /\ (mrfld_get_bufcfg edison_pinctrl 38 booted).1
     = (mrfld_get_bufcfg edison_pinctrl 37 booted).1 + 4.
Proof.
  assert (Hcov : covers (MRFLD_FAMILY 3 37 56) 38)
    by (vm_compute; split; [discriminate | reflexivity]).
  destruct (mrfld_get_bufcfg_address
              0xff0c0000 mrfld_families 0 (MRFLD_FAMILY 3 37 56) 38 booted)
    as (Haddr & _ & _ & Hstep);
    [reflexivity | reflexivity | exact Hcov | lia | vm_compute; reflexivity |].
  split; [exact Hcov|]. split; [exact Haddr|]. apply Hstep. vm_compute. reflexivity.
Defined.

(** A direct and a protected entry on the sample platform. *)
Lemma cfg_pin_write_path_run :
  @mrfld_pinctrl_cfg_pin edison sd_pin booted
    = (0, stored 0xff0c0d00 0xABCD1235 booted)
  /\ @mrfld_pinctrl_cfg_pin edison i2c_pin booted
    = (0, @relayed edison 0xff0c1d00 2 booted).
Proof.
  split.
  - destruct (@cfg_pin_write_path edison sd_pin
                {| family_number := 3; pin_base := 37; npins := 20;
                   regs := 0xff0c0c00 |} booted)
      as (_ & _ & Hrun).
    apply Hrun; [vm_compute; discriminate | vm_compute; split; discriminate
                | reflexivity | reflexivity | vm_compute; discriminate].
  - destruct (@cfg_pin_write_path edison i2c_pin
                {| family_number := 7; pin_base := 101; npins := 14;
                   regs := 0xff0c1c00 |} booted)
      as (_ & _ & Hrun).
    apply Hrun; [vm_compute; discriminate | vm_compute; split; discriminate
                | reflexivity | reflexivity | vm_compute; discriminate].
Defined.

(** Pin 40 resolves to family 3.  Pin 999, far from every range, and pin 57,
    one past the end of family 3, resolve to nothing; the entry that names
    pin 999 does not stop the pass. *)
Lemma mrfld_get_family_resolves_run :
  table_ok (families edison_pinctrl) = true
  /\ mrfld_get_family edison_pinctrl 40 booted
     = (Some {| family_number := 3; pin_base := 37; npins := 20;
                regs := 0xff0c0c00 |}, booted)
  /\ mrfld_get_family edison_pinctrl 999 booted
     = (None, logged [EvPrErr (FailedToFindFamily 999)] booted)
  /\ mrfld_get_family edison_pinctrl 57 booted
     = (None, logged [EvPrErr (FailedToFindFamily 57)] booted)
  /\ @mrfld_pinctrl_cfg_pin edison far_pin booted
     = (-22, logged [EvPrErr (FailedToFindFamily 999);
                     EvPrErr (FailedToSetMode 999 (-22))] booted)
  /\ @tangier_pinctrl_probe_loop edison [far_pin; sd_pin] booted
     = @tangier_pinctrl_probe_loop edison [sd_pin]
         (logged [EvPrErr (FailedToFindFamily 999);
                  EvPrErr (FailedToSetMode 999 (-22));
                  EvPrErr (InvalidConfiguration 10)] booted).
Proof.
  destruct (@mrfld_get_family_resolves edison edison_pinctrl 0 0
              {| family_number := 3; pin_base := 37; npins := 20;
                 regs := 0xff0c0c00 |}
              {| family_number := 3; pin_base := 37; npins := 20;
                 regs := 0xff0c0c00 |}
              40 999 57 far_pin [sd_pin] booted)
    as (Hin & _ & Hout & Hedge & Hpass);
    [reflexivity | reflexivity | reflexivity
    | vm_compute; split; [discriminate | reflexivity]
    | repeat constructor; vm_compute; intros [Hlo Hhi];
      (by apply Hlo) || discriminate Hhi |].
  split; [reflexivity|]. split; [exact Hin|]. split; [exact Hout|].
  destruct Hedge as (_ & Hedge); [right; reflexivity|].
  split.
  { apply Hedge. repeat constructor; vm_compute; intros [Hlo Hhi];
      (by apply Hlo) || discriminate Hhi. }
  destruct Hpass as (Hcfg & Hloop & _);
    [reflexivity | reflexivity | vm_compute; discriminate | reflexivity
    | vm_compute; split; discriminate |].
  split; [exact Hcfg | exact Hloop].
Defined.

(** Mode 8 is refused before anything is touched. *)
Lemma cfg_pin_unsupported_mode_run :
  @mrfld_pinctrl_cfg_pin edison wide_mode_pin booted = (-524, booted).
Proof.
  apply (@cfg_pin_unsupported_mode edison wide_mode_pin booted);
    vm_compute; discriminate.
Defined.

(** Mode -1 has every bit outside [0b111] set, yet the entry is refused with
    [-EINVAL], not [-ENOTSUPP]. *)
Lemma cfg_pin_mode_minus_one :
  s32_props sentinel_mode_pin !! "pad-offset" = Some 37
  /\ ofnode_read_s32_default sentinel_mode_pin "mode-func" (-1) = -1
  /\ Z.land (-1) (Z.lnot 7) <> 0
  /\ @mrfld_pinctrl_cfg_pin edison sentinel_mode_pin booted
     = (- Z.pos (@EINVAL edison), booted)
  /\ (@mrfld_pinctrl_cfg_pin edison sentinel_mode_pin booted).1
     <> - Z.pos (@ENOTSUPP edison).
Proof. vm_compute. repeat split; discriminate. Qed.

(** An entry without [mode-func]. *)
Lemma cfg_pin_missing_field_run :
  s32_props no_mode_pin !! "mode-func" = None
  /\ @mrfld_pinctrl_cfg_pin edison no_mode_pin booted = (-22, booted).
Proof.
  split; [reflexivity|].
  apply (@cfg_pin_missing_field edison no_mode_pin booted). right. reflexivity.
Defined.

(** A [pad-offset] cell of 0xFFFFFFFF reads as -1. *)
Lemma cfg_pin_minus_one_is_missing_run :
  s32 0xFFFFFFFF = -1
  /\ @mrfld_pinctrl_cfg_pin edison sentinel_pad_pin booted = (-22, booted)
  /\ @mrfld_pinctrl_cfg_pin edison sentinel_pad_pin booted
     = @mrfld_pinctrl_cfg_pin edison (without "pad-offset" sentinel_pad_pin) booted
  /\ (@mrfld_pinctrl_cfg_pin edison sentinel_pad_pin booted).1 <> -524.
Proof.
  destruct (@cfg_pin_minus_one_is_missing edison sentinel_pad_pin
              "pad-offset" 0xFFFFFFFF booted)
    as (Hrun & Hsame & Hnot); [left; reflexivity | reflexivity | reflexivity |].
  split; [reflexivity|]. split; [exact Hrun|]. split; [exact Hsame|].
  apply Hnot. discriminate.
Defined.

(** The installed table on the sample platform. *)
Lemma mrfld_families_table_run :
  priv (@tangier_pinctrl_probe edison [sd_pin; i2c_pin] power_on).2
  = {| families :=
         [ {| family_number := 3; pin_base := 37; npins := 20;
              regs := 0xff0c0000 + 3 * 1024 |};
           {| family_number := 7; pin_base := 101; npins := 14;
              regs := 0xff0c0000 + 7 * 1024 |} ];
       nfamilies := 2 |}.
Proof.
  destruct (@mrfld_families_table edison [sd_pin; i2c_pin] 37 power_on)
    as (Htable & _); [vm_compute; discriminate | vm_compute; reflexivity |].
  exact Htable.
Defined.

(** Family A does not reach pin 92: pins 57 and 92 belong to no family of the
    installed table, whose first family has 20 pins. *)
Lemma family_A_ends_at_56 :
  let mp := priv (@tangier_pinctrl_probe edison [] power_on).2 in
  map npins (families mp) = [20; 14]
  /\ mrfld_get_family_loop mp 56 0 (nfamilies mp) <> None
  /\ mrfld_get_family_loop mp 57 0 (nfamilies mp) = None
  /\ mrfld_get_family_loop mp 92 0 (nfamilies mp) = None.
Proof. vm_compute. repeat split; discriminate. Qed.

(** A whole pass: a direct entry, an entry for a pin of no family, a protected
    entry.  The second one fails and is logged; the third is still served. *)
Example probe_scenario :
  let r := @tangier_pinctrl_probe edison [sd_pin; stray_pin; i2c_pin] power_on in
  r.1 = 0
  /\ trace r.2
     = [ EvReadl 0xff0c0d00 0; EvWritel 5 0xff0c0d00;
         EvPrErr (FailedToFindFamily 57);
         EvPrErr (FailedToSetMode 57 (-22));
         EvPrErr (InvalidConfiguration 3);
         EvReadl 0xff0c1d00 0;
         EvScuIpc {| scu_cmd := 5; scu_sub := 0; scu_in := 2; scu_inlen := 4;
                     scu_outlen := 0; scu_dptr := 0xff0c1d00; scu_sptr := 0 |} 0 ]
  /\ io r.2 !! 0xff0c0d00 = Some 5
  /\ io r.2 !! 0xff0c1d00 = Some 2.
Proof. vm_compute. repeat split. Qed.

(** * Further properties of the driver *)

(** ** The resolver on arbitrary tables *)

Lemma mrfld_get_family_loop_sound mp pin (i n : nat) f :
  mrfld_get_family_loop mp pin i n = Some f ->
  exists k : nat,
    (i <= k < i + n)%nat /\ families mp !! k = Some f
    /\ pin_in_family f pin = true
    /\ forall (j : nat) g, (i <= j < k)%nat -> families mp !! j = Some g ->
                          pin_in_family g pin = false.
Proof.
  revert i. induction n as [|n IH]; intros i Hl; [done|].
  cbn [mrfld_get_family_loop] in Hl.
  destruct (families mp !! i) as [h|] eqn:Hi; [|done].
  destruct (pin_in_family h pin) eqn:Hin.
  - injection Hl as <-. exists i. split; [lia|]. split; [done|]. split; [done|].
    intros j g Hj. lia.
  - destruct (IH _ Hl) as (k & Hk & Hkf & Hkin & Hbefore).
    exists k. split; [lia|]. split; [done|]. split; [done|].
    intros j g Hj Hg. destruct (decide (j = i)) as [->|Hne].
    + rewrite Hi in Hg. by injection Hg as <-.
    + apply (Hbefore j g); [lia|done].
Qed.

Lemma mrfld_get_family_loop_none mp pin (i n : nat) :
  mrfld_get_family_loop mp pin i n = None ->
  forall (j : nat) g, (i <= j < i + n)%nat -> families mp !! j = Some g ->
                      pin_in_family g pin = false.
Proof.
  revert i. induction n as [|n IH]; intros i Hl j g Hj Hg; [lia|].
  cbn [mrfld_get_family_loop] in Hl.
  destruct (families mp !! i) as [h|] eqn:Hi.
  - destruct (pin_in_family h pin) eqn:Hin; [done|].
    destruct (decide (j = i)) as [->|Hne].
    + rewrite Hi in Hg. by injection Hg as <-.
    + apply (IH _ Hl j g); [lia|done].
  - apply lookup_ge_None in Hi. apply lookup_lt_Some in Hg. lia.
Qed.

Lemma mrfld_get_family_fst mp pin st :
  (mrfld_get_family mp pin st).1 = mrfld_get_family_loop mp pin 0 (nfamilies mp).
Proof.
  unfold mrfld_get_family.
  by destruct (mrfld_get_family_loop mp pin 0 (nfamilies mp)).
Qed.

(** X1.  Whatever the table holds (overlapping ranges included), the family
    [mrfld_get_family] returns is the first of the [nfamilies] visited
    entries whose range test accepts the pin; it returns nothing only if
    none of them does. *)
Theorem mrfld_get_family_first_match (mp : mrfld_pinctrl) (pin : Z) (st : machine) :
  match (mrfld_get_family mp pin st).1 with
  | Some f =>
      exists k : nat,
        (k < nfamilies mp)%nat /\ families mp !! k = Some f
        /\ pin_in_family f pin = true
        /\ forall (j : nat) g, (j < k)%nat -> families mp !! j = Some g ->
                              pin_in_family g pin = false
  | None =>
      forall (j : nat) g, (j < nfamilies mp)%nat -> families mp !! j = Some g ->
                          pin_in_family g pin = false
  end.
Proof.
  rewrite mrfld_get_family_fst.
  destruct (mrfld_get_family_loop mp pin 0 (nfamilies mp)) as [f|] eqn:Hl.
  - destruct (mrfld_get_family_loop_sound _ _ _ _ _ Hl) as (k & Hk & Hkf & Hin & Hb).
    exists k. split; [lia|]. split; [done|]. split; [done|].
    intros j g Hj. apply Hb. lia.
  - intros j g Hj. apply (mrfld_get_family_loop_none _ _ _ _ Hl). lia.
Qed.

(** X2.  A family whose pin range runs past the end of the 32-bit integers
    ([pin_base + npins >= 2^32]) is never returned: the sum in the range test
    wraps to a value below [pin_base]. *)
Theorem mrfld_get_family_wrapped_range
    (mp : mrfld_pinctrl) (f : mrfld_family) (pin : Z) (st : machine) :
  is_u32 (pin_base f) -> is_u32 (npins f) -> modulus <= pin_base f + npins f ->
  pin_in_family f pin = false /\ (mrfld_get_family mp pin st).1 <> Some f.
Proof.
  intros Hb Hn Hwrap.
  assert (Hout : pin_in_family f pin = false).
  { unfold pin_in_family, u32. unfold is_u32 in *.
    replace ((pin_base f + npins f) mod modulus) with (pin_base f + npins f - modulus).
    - apply andb_false_iff.
      destruct (Z.leb_spec (pin_base f) pin); [right|by left].
      apply Z.ltb_ge. lia.
    - apply Z.mod_unique with (q := 1); lia. }
  split; [done|]. rewrite mrfld_get_family_fst. intros Hl.
  destruct (mrfld_get_family_loop_sound _ _ _ _ _ Hl) as (k & _ & _ & Hin & _).
  congruence.
Qed.

(** X3.  [MRFLD_FAMILY(b, s, e)] with [s <= e] describes the [e - s + 1] pins
    from [s] to [e], both included: the range test accepts exactly those. *)
Theorem MRFLD_FAMILY_range (b s e p : Z) :
  0 <= s <= e -> e < modulus - 1 ->
  npins (MRFLD_FAMILY b s e) = e - s + 1
  /\ (pin_in_family (MRFLD_FAMILY b s e) p = true <-> s <= p <= e).
Proof.
  intros Hse He. unfold modulus in He.
  assert (Hn : npins (MRFLD_FAMILY b s e) = e - s + 1).
  { cbn. apply u32_small. unfold modulus. lia. }
  split; [done|]. unfold pin_in_family. rewrite Hn. cbn [pin_base MRFLD_FAMILY].
  rewrite u32_small by (unfold modulus; lia).
  rewrite andb_true_iff, Z.leb_le, Z.ltb_lt. lia.
Qed.

(** ** Setting up the table *)

Lemma mrfld_setup_families_loop_shape base pre l (n : nat) :
  mrfld_setup_families_loop base (pre ++ l) (length pre) n
  = pre ++ map (set_regs base) (take n l) ++ drop n l.
Proof.
  revert pre l. induction n as [|n IH]; intros pre l.
  - by rewrite take_0, drop_0.
  - cbn [mrfld_setup_families_loop]. destruct l as [|f l].
    + rewrite app_nil_r, lookup_ge_None_2 by done.
      cbn. by rewrite app_nil_r.
    + rewrite list_lookup_middle by done.
      rewrite insert_app_r_alt by lia.
      replace (length pre - length pre)%nat with 0%nat by lia.
      cbn [insert list_insert take drop map app].
      specialize (IH (pre ++ [set_regs base f]) l).
      rewrite length_app in IH. cbn [length] in IH.
      replace (length pre + 1)%nat with (S (length pre)) in IH by lia.
      rewrite <- !app_assoc in IH. exact IH.
Qed.

Lemma mrfld_setup_families_shape base fams (n : nat) :
  mrfld_setup_families base fams n
  = map (set_regs base) (take n fams) ++ drop n fams.
Proof. exact (mrfld_setup_families_loop_shape base [] fams n). Qed.

Lemma set_regs_set_regs base base' f :
  set_regs base' (set_regs base f) = set_regs base' f.
Proof. reflexivity. Qed.

Lemma pin_in_family_set_regs base f pin :
  pin_in_family (set_regs base f) pin = pin_in_family f pin.
Proof. reflexivity. Qed.

Lemma find_map_set_regs base fams pin :
  List.find (fun f => pin_in_family f pin) (map (set_regs base) fams)
  = set_regs base <$> List.find (fun f => pin_in_family f pin) fams.
Proof.
  induction fams as [|f fams IH]; [done|]. cbn [map List.find].
  rewrite pin_in_family_set_regs. by destruct (pin_in_family f pin).
Qed.

(** X4.  [mrfld_setup_families] keeps the number of entries and, in every
    entry, the family number and the pin range; it writes [regs] in the
    first [nfam] entries ([base_addr + family_number * 0x400] in 32 bits) and
    leaves the entries from [nfam] on as they were. *)
Theorem mrfld_setup_families_writes_regs_only
    (base_addr : Z) (fams : list mrfld_family) (nfam i : nat) :
  let fams' := mrfld_setup_families base_addr fams nfam in
  length fams' = length fams
  /\ match fams !! i with
     | None => fams' !! i = None
     | Some f =>
         fams' !! i
         = Some {| family_number := family_number f;
                   pin_base := pin_base f;
                   npins := npins f;
                   regs := if (i <? nfam)%nat
                           then u32 (base_addr + u32 (family_number f * 0x400))
                           else regs f |}
     end.
Proof.
  cbn zeta. rewrite mrfld_setup_families_shape.
  split.
  - rewrite length_app, length_map, length_take, length_drop. lia.
  - destruct (fams !! i) as [f|] eqn:Hi.
    + pose proof (lookup_lt_Some _ _ _ Hi) as Hlt.
      destruct (Nat.ltb_spec i nfam) as [Hin|Hout].
      * rewrite lookup_app_l by (rewrite length_map, length_take; lia).
        rewrite lookup_map_set_regs, lookup_take_lt, Hi by lia. done.
      * rewrite lookup_app_r by (rewrite length_map, length_take; lia).
        rewrite length_map, length_take, lookup_drop.
        replace (nfam + (i - nfam `min` length fams))%nat with i by lia.
        rewrite Hi. by destruct f.
    + apply lookup_ge_None in Hi. apply lookup_ge_None.
      rewrite length_app, length_map, length_take, length_drop. lia.
Qed.

(** X5.  Setting the table up again for another region replaces the
    addresses of the first set-up altogether: the result is the one a single
    set-up for the last region gives. *)
Theorem mrfld_setup_families_again
    (base_addr base_addr' : Z) (fams : list mrfld_family) (nfam : nat) :
  mrfld_setup_families base_addr'
    (mrfld_setup_families base_addr fams nfam) nfam
  = mrfld_setup_families base_addr' fams nfam.
Proof.
  rewrite !mrfld_setup_families_shape.
  assert (Hlen : length (map (set_regs base_addr) (take nfam fams))
                 = (nfam `min` length fams)%nat)
    by (by rewrite length_map, length_take).
  destruct (Nat.le_gt_cases nfam (length fams)) as [Hle|Hgt].
  - rewrite take_app_length' by lia. rewrite drop_app_length' by lia.
    f_equal. rewrite map_map. apply map_ext. intros f. apply set_regs_set_regs.
  - rewrite (drop_ge fams nfam) by lia. rewrite !app_nil_r.
    rewrite (take_ge fams nfam) by lia.
    rewrite take_ge by (rewrite length_map; lia).
    rewrite drop_ge by (rewrite length_map; lia).
    rewrite app_nil_r, map_map. apply map_ext. intros f. apply set_regs_set_regs.
Qed.

(** X6.  Setting up the table does not change which entry a pin resolves to:
    the family found in the installed table is the one found in the table of
    the source file, with its address filled in. *)
Theorem mrfld_get_family_after_setup
    (base_addr : Z) (fams : list mrfld_family) (pin : Z) (st : machine) :
  (mrfld_get_family (probed base_addr fams) pin st).1
  = set_regs base_addr <$> (mrfld_get_family (static_pinctrl fams) pin st).1.
Proof.
  rewrite !mrfld_get_family_fst.
  rewrite !mrfld_get_family_loop_whole;
    [|done|by rewrite families_probed; cbn; rewrite length_map].
  rewrite families_probed. apply find_map_set_regs.
Qed.

(** ** What the driver touches *)

Lemma quiet_app evs evs' : quiet (evs ++ evs') = quiet evs && quiet evs'.
Proof. apply forallb_app. Qed.

Lemma bufcfg_of_u32 f pin : u32 (bufcfg_of f pin) = bufcfg_of f pin.
Proof. unfold bufcfg_of. apply u32_small, u32_range. Qed.

Section Access.

Context `{Platform}.

Lemma mrfld_pinconfig_get_bufcfg_cases_family pin st :
  (exists ret evs, mrfld_pinconfig_get_bufcfg pin st = (inl ret, logged evs st)
                   /\ ret <> 0 /\ quiet evs = true)
  \/ (exists f, mrfld_get_family_loop (priv st) pin 0 (nfamilies (priv st)) = Some f
                /\ bufcfg_of f pin <> 0
                /\ mrfld_pinconfig_get_bufcfg pin st = (inr (bufcfg_of f pin), st)).
Proof.
  destruct (mrfld_pinconfig_get_bufcfg_cases pin st)
    as [Hfail|(addr & Hrun & Hnz)]; [by left|].
  right.
  destruct (Z.eq_dec (syscon_get_by_driver_data X86_SYSCON_PINCONF) 0) as [Hsys|Hsys].
  2: { by rewrite mrfld_pinconfig_get_bufcfg_nodev in Hrun. }
  destruct (mrfld_get_family_loop (priv st) pin 0 (nfamilies (priv st))) as [f|] eqn:Hl.
  2: { by rewrite mrfld_pinconfig_get_bufcfg_missing in Hrun. }
  exists f. split; [done|].
  destruct (Z.eq_dec (bufcfg_of f pin) 0) as [Hz|Hnz'].
  - exfalso. revert Hrun.
    unfold mrfld_pinconfig_get_bufcfg, mrfld_get_bufcfg.
    rewrite Hsys. cbn [Z.eqb negb]. run.
    rewrite (mrfld_get_family_found _ _ _ _ Hl).
    fold (bufcfg_of f pin). by rewrite Hz.
  - split; [done|]. by apply mrfld_pinconfig_get_bufcfg_found.
Qed.

(** Every run of [mrfld_pinctrl_cfg_pin] is of one of three kinds. *)
Lemma cfg_pin_shape node st :
  (exists evs, quiet evs = true /\ (mrfld_pinctrl_cfg_pin node st).2 = logged evs st)
  \/ (exists f,
        let pin := u32 (ofnode_read_s32_default node "pad-offset" (-1)) in
        let mode := ofnode_read_s32_default node "mode-func" (-1) in
        let addr := bufcfg_of f pin in
        let nv := updated (reg_value st addr) MRFLD_PINMODE_MASK mode in
        mrfld_get_family_loop (priv st) pin 0 (nfamilies (priv st)) = Some f
        /\ addr <> 0
        /\ ((ofnode_read_bool node "protected" = false
             /\ mrfld_pinctrl_cfg_pin node st = (0, stored addr nv st))
            \/ (ofnode_read_bool node "protected" = true
                /\ exists evs, quiet evs = true
                     /\ (mrfld_pinctrl_cfg_pin node st).2
                        = logged evs (relayed addr nv st)))).
Proof.
  assert (Hnone : forall ret, mrfld_pinctrl_cfg_pin node st = (ret, st) ->
            exists evs, quiet evs = true
                        /\ (mrfld_pinctrl_cfg_pin node st).2 = logged evs st).
  { intros ret ->. exists []. by rewrite logged_nil. }
  destruct (Z.eq_dec (ofnode_read_s32_default node "pad-offset" (-1)) (-1)) as [Hp|Hp].
  { left. eapply Hnone. by apply cfg_pin_no_pad_offset. }
  destruct (Z.eq_dec (ofnode_read_s32_default node "mode-func" (-1)) (-1)) as [Hm|Hm].
  { left. eapply Hnone. by apply cfg_pin_no_mode. }
  destruct (decide (0 <= ofnode_read_s32_default node "mode-func" (-1) <= 7)) as [Hr|Hr].
  2: { left. eapply Hnone. by apply cfg_pin_mode_out_of_range. }
  clear Hnone. rewrite (cfg_pin_valid _ _ Hp Hr). cbn zeta.
  set (pin := u32 _). set (mode := ofnode_read_s32_default node "mode-func" (-1)).
  destruct (mrfld_pinconfig_get_bufcfg_cases_family pin st)
    as [(ret & evs & Hrun & Hret & Hq)|(f & Hl & Hnz & Hrun)].
  - left. exists (evs ++ [EvPrErr (FailedToSetMode pin ret)]).
    split; [by rewrite quiet_app, Hq|].
    destruct (ofnode_read_bool node "protected");
      [rewrite mrfld_pinconfig_protected_run | rewrite mrfld_pinconfig_run];
      rewrite Hrun; cbn [fst snd]; rewrite (proj2 (Z.eqb_neq _ _) Hret);
      by rewrite logged_app.
  - right. exists f. split; [done|]. split; [done|].
    destruct (ofnode_read_bool node "protected").
    + right. split; [done|]. rewrite mrfld_pinconfig_protected_run, Hrun.
      cbn [fst snd]. destruct (_ =? 0).
      * exists []. by rewrite logged_nil.
      * eexists. split; [|reflexivity]. done.
    + left. split; [done|]. by rewrite mrfld_pinconfig_run, Hrun.
Qed.

Lemma mrfld_get_family_loop_pin_register mp pin f :
  mrfld_get_family_loop mp pin 0 (nfamilies mp) = Some f ->
  pin_register mp (bufcfg_of f pin).
Proof.
  intros Hl.
  destruct (mrfld_get_family_loop_sound _ _ _ _ _ Hl) as (k & Hk & Hkf & Hin & _).
  exists k, f, pin. split; [lia|]. by repeat split.
Qed.

(** X7.  One entry reaches the hardware at most once, and then in a fixed
    order.  Either it adds nothing but log lines and every register keeps its
    content, or it adds one read of a register, then one store or one channel
    request for that very register, then at most log lines; the register is
    the control register of a pin of the table. *)
Theorem cfg_pin_access_shape (node : ofnode) (st : machine) :
  exists evs,
    trace (mrfld_pinctrl_cfg_pin node st).2 = trace st ++ evs
    /\ ((quiet evs = true /\ io (mrfld_pinctrl_cfg_pin node st).2 = io st)
        \/ (exists addr w logs,
              evs = EvReadl addr (reg_value st addr) :: w :: logs
              /\ is_store w || is_channel w = true
              /\ event_addr w = Some addr
              /\ quiet logs = true
              /\ pin_register (priv st) addr)).
Proof.
  destruct (cfg_pin_shape node st)
    as [(evs & Hq & Hrun)|(f & Hl & Hnz & [(_ & Hrun)|(_ & evs & Hq & Hrun)])].
  - exists evs. rewrite Hrun. split; [done|]. by left.
  - rewrite Hrun. eexists. split; [reflexivity|]. right.
    eexists _, _, []. split; [reflexivity|].
    repeat split. by apply mrfld_get_family_loop_pin_register.
  - rewrite Hrun. eexists. split.
    { unfold logged, relayed. cbn [trace]. rewrite <- app_assoc. reflexivity. }
    right. eexists _, _, evs. split; [reflexivity|].
    split; [done|]. split; [cbn; by rewrite bufcfg_of_u32|]. split; [done|].
    by apply mrfld_get_family_loop_pin_register.
Qed.

End Access.

Lemma quiet_no_addr (P : Z -> Prop) evs :
  quiet evs = true -> Forall (fun e => forall a, event_addr e = Some a -> P a) evs.
Proof.
  unfold quiet. rewrite forallb_forall. intros Hq. apply Forall_forall.
  intros e He a Ha. apply list_elem_of_In in He. specialize (Hq e He).
  by destruct e.
Qed.

(** The registers of the two families of the source file lie in the two
    windows. *)
Lemma pin_register_window base addr :
  0 <= base -> base + 0x2000 <= modulus ->
  pin_register (probed base mrfld_families) addr -> pin_window base addr.
Proof.
  intros Hbase Hfit (i & f & pin & Hi & Hf & Hin & ->).
  rewrite families_probed in Hf. cbn in Hi. unfold modulus in Hfit.
  unfold pin_window, bufcfg_of, pin_to_bufno, BUFCFG_OFFSET.
  destruct i as [|[|i]]; [| |lia]; cbn in Hf; injection Hf as <-;
    unfold pin_in_family in Hin; cbn [pin_base npins set_regs regs] in *;
    apply andb_prop in Hin as [Hlo Hhi];
    apply Z.leb_le in Hlo; apply Z.ltb_lt in Hhi.
  - change (pin_base (MRFLD_FAMILY 3 37 56)) with 37 in *.
    change (npins (MRFLD_FAMILY 3 37 56)) with 20 in *.
    change (family_number (MRFLD_FAMILY 3 37 56)) with 3.
    change (u32 (37 + 20)) with 57 in Hhi.
    change (u32 (3 * MRFLD_FAMILY_LEN)) with 3072.
    rewrite (u32_small (pin - 37)) by (unfold modulus; lia).
    rewrite (u32_small ((pin - 37) * 4)) by (unfold modulus; lia).
    rewrite (u32_small (base + 3072)) by (unfold modulus; lia).
    rewrite u32_small by (unfold modulus; lia). lia.
  - change (pin_base (MRFLD_FAMILY 7 101 114)) with 101 in *.
    change (npins (MRFLD_FAMILY 7 101 114)) with 14 in *.
    change (family_number (MRFLD_FAMILY 7 101 114)) with 7.
    change (u32 (101 + 14)) with 115 in Hhi.
    change (u32 (7 * MRFLD_FAMILY_LEN)) with 7168.
    rewrite (u32_small (pin - 101)) by (unfold modulus; lia).
    rewrite (u32_small ((pin - 101) * 4)) by (unfold modulus; lia).
    rewrite (u32_small (base + 7168)) by (unfold modulus; lia).
    rewrite u32_small by (unfold modulus; lia). lia.
Qed.

Section Safety.

Context `{Platform}.

Lemma cfg_pin_touches_registers node st :
  exists evs,
    trace (mrfld_pinctrl_cfg_pin node st).2 = trace st ++ evs
    /\ Forall (fun e => forall a, event_addr e = Some a -> pin_register (priv st) a) evs.
Proof.
  destruct (cfg_pin_shape node st)
    as [(evs & Hq & Hrun)|(f & Hl & Hnz & [(_ & Hrun)|(_ & evs & Hq & Hrun)])];
    rewrite Hrun.
  - exists evs. split; [done|]. by apply quiet_no_addr.
  - eexists. split; [reflexivity|].
    pose proof (mrfld_get_family_loop_pin_register _ _ _ Hl) as Hreg.
    repeat constructor; intros a [= <-]; exact Hreg.
  - eexists. split.
    { unfold logged, relayed. cbn [trace]. rewrite <- app_assoc. reflexivity. }
    pose proof (mrfld_get_family_loop_pin_register _ _ _ Hl) as Hreg.
    apply Forall_app. split; [|by apply quiet_no_addr].
    repeat constructor; cbn; rewrite ?bufcfg_of_u32; intros a [= <-]; exact Hreg.
Qed.

Lemma attempt_touches_registers n st :
  exists evs,
    trace (attempt n st).2 = trace st ++ evs
    /\ Forall (fun e => forall a, event_addr e = Some a -> pin_register (priv st) a) evs.
Proof.
  rewrite attempt_run. cbn [snd].
  destruct (cfg_pin_touches_registers n st) as (evs & Htr & Hall).
  destruct (_ =? 0).
  - by exists evs.
  - exists (evs ++ [EvPrErr (InvalidConfiguration (of_offset n))]). split.
    + unfold logged. cbn [trace]. by rewrite Htr, app_assoc.
    + apply Forall_app. split; [done|]. repeat constructor. intros a [=].
Qed.

Lemma probe_loop_touches_registers nodes st :
  exists evs,
    trace (tangier_pinctrl_probe_loop nodes st).2 = trace st ++ evs
    /\ Forall (fun e => forall a, event_addr e = Some a -> pin_register (priv st) a) evs.
Proof.
  revert st. induction nodes as [|n nodes IH]; intros st.
  - exists []. by rewrite app_nil_r.
  - rewrite probe_loop_cons.
    destruct (attempt_touches_registers n st) as (evs & Htr & Hall).
    destruct (IH (attempt n st).2) as (evs' & Htr' & Hall').
    rewrite attempt_priv in Hall'.
    exists (evs ++ evs'). split.
    + by rewrite Htr', Htr, app_assoc.
    + apply Forall_app. by split.
Qed.

(** X8.  Whatever the entries say, every register the pass reads or stores
    to, and every target it hands to the SCU, lies in one of the two register
    windows of the families of the source file (given that the region fits
    the 32-bit address space). *)
Theorem tangier_pinctrl_probe_stays_in_windows (nodes : list ofnode) (st : machine) :
  let base := syscon_get_first_range X86_SYSCON_PINCONF in
  0 <= base -> base + 0x2000 <= modulus ->
  exists evs,
    trace (tangier_pinctrl_probe nodes st).2 = trace st ++ evs
    /\ Forall (fun e => forall a, event_addr e = Some a -> pin_window base a) evs.
Proof.
  intros base Hbase Hfit. rewrite probe_run. cbn [snd].
  destruct (probe_loop_touches_registers nodes (installed st)) as (evs & Htr & Hall).
  exists evs. split; [done|].
  eapply Forall_impl; [exact Hall|]. intros e He a Ha.
  apply pin_register_window; [done..|]. by apply He.
Qed.

Lemma probe_loop_quiet nodes st :
  (forall n st', exists evs, quiet evs = true /\ (attempt n st').2 = logged evs st') ->
  exists evs, quiet evs = true
              /\ (tangier_pinctrl_probe_loop nodes st).2 = logged evs st.
Proof.
  intros Hstep. revert st. induction nodes as [|n nodes IH]; intros st.
  - exists []. by rewrite logged_nil.
  - rewrite probe_loop_cons.
    destruct (Hstep n st) as (evs & Hq & ->).
    destruct (IH (logged evs st)) as (evs' & Hq' & ->).
    exists (evs ++ evs'). split; [by rewrite quiet_app, Hq, Hq'|].
    by rewrite logged_app.
Qed.

Lemma cfg_pin_nodev node st :
  syscon_get_by_driver_data X86_SYSCON_PINCONF <> 0 ->
  exists evs, quiet evs = true /\ mrfld_pinctrl_cfg_pin node st
                                 = ((mrfld_pinctrl_cfg_pin node st).1, logged evs st).
Proof.
  intros Hsys.
  assert (Hnone : forall ret, mrfld_pinctrl_cfg_pin node st = (ret, st) ->
            exists evs, quiet evs = true
                        /\ mrfld_pinctrl_cfg_pin node st
                           = ((mrfld_pinctrl_cfg_pin node st).1, logged evs st)).
  { intros ret ->. exists []. by rewrite logged_nil. }
  destruct (Z.eq_dec (ofnode_read_s32_default node "pad-offset" (-1)) (-1)) as [Hp|Hp].
  { eapply Hnone. by apply cfg_pin_no_pad_offset. }
  destruct (Z.eq_dec (ofnode_read_s32_default node "mode-func" (-1)) (-1)) as [Hm|Hm].
  { eapply Hnone. by apply cfg_pin_no_mode. }
  destruct (decide (0 <= ofnode_read_s32_default node "mode-func" (-1) <= 7)) as [Hr|Hr].
  2: { eapply Hnone. by apply cfg_pin_mode_out_of_range. }
  clear Hnone. rewrite (cfg_pin_valid _ _ Hp Hr). cbn zeta.
  exists [EvPrErr (FailedToSetMode
                     (u32 (ofnode_read_s32_default node "pad-offset" (-1)))
                     (syscon_get_by_driver_data X86_SYSCON_PINCONF))].
  split; [done|].
  destruct (ofnode_read_bool node "protected");
    [rewrite mrfld_pinconfig_protected_run | rewrite mrfld_pinconfig_run];
    rewrite mrfld_pinconfig_get_bufcfg_nodev by done; cbn [fst snd];
    by rewrite (proj2 (Z.eqb_neq _ _) Hsys).
Qed.

(** X9.  When the lookup of the pin controller device fails with a status
    [ret], both write paths return [ret] at once, without looking for the
    family, and a whole pass over any entries reaches no register and no
    channel: it only adds log lines. *)
Theorem no_device_no_access
    (nodes : list ofnode) (pin mask bits : Z) (st : machine) :
  let ret := syscon_get_by_driver_data X86_SYSCON_PINCONF in
  ret <> 0 ->
  mrfld_pinconfig pin mask bits st = (ret, st)
  /\ mrfld_pinconfig_protected pin mask bits st = (ret, st)
  /\ io (tangier_pinctrl_probe nodes st).2 = io st
  /\ exists evs, quiet evs = true
                /\ trace (tangier_pinctrl_probe nodes st).2 = trace st ++ evs.
Proof.
  intros ret Hret.
  split; [by rewrite mrfld_pinconfig_run, mrfld_pinconfig_get_bufcfg_nodev|].
  split; [by rewrite mrfld_pinconfig_protected_run, mrfld_pinconfig_get_bufcfg_nodev|].
  assert (Hstep : forall n st', exists evs,
             quiet evs = true /\ (attempt n st').2 = logged evs st').
  { intros n st'. rewrite attempt_run. cbn [snd].
    destruct (cfg_pin_nodev n st' Hret) as (evs & Hq & ->). cbn [fst snd].
    destruct (_ =? 0).
    - by exists evs.
    - eexists. split; [|by rewrite logged_app]. by rewrite quiet_app, Hq. }
  rewrite probe_run. cbn [snd].
  destruct (probe_loop_quiet nodes (installed st) Hstep) as (evs & Hq & ->).
  split; [done|]. by exists evs.
Qed.

End Safety.

(** ** Registers after a write *)

Lemma lor_u32 a b : is_u32 a -> is_u32 b -> is_u32 (Z.lor a b).
Proof.
  unfold is_u32, modulus. intros Ha Hb.
  assert (Hmod : Z.lor a b = Z.lor a b mod 2 ^ 32).
  { rewrite <- Z.land_ones, Z.land_lor_distr_l, !Z.land_ones by lia.
    by rewrite (Z.mod_small a), (Z.mod_small b). }
  rewrite Hmod. apply Z.mod_pos_bound. lia.
Qed.

Lemma land_u32_l a b : is_u32 a -> is_u32 (Z.land a b).
Proof.
  unfold is_u32, modulus. intros Ha.
  assert (Hmod : Z.land a b = Z.land a b mod 2 ^ 32).
  { rewrite <- (Z.land_ones (Z.land a b)) by lia.
    rewrite <- Z.land_assoc, (Z.land_comm b), Z.land_assoc, Z.land_ones by lia.
    by rewrite (Z.mod_small a). }
  rewrite Hmod. apply Z.mod_pos_bound. lia.
Qed.

Lemma updated_u32 v mask bits :
  is_u32 v -> is_u32 bits -> is_u32 (updated v mask bits).
Proof.
  intros Hv Hb. unfold updated. apply lor_u32; by apply land_u32_l.
Qed.

(** Updating twice under one mask is updating once with the last bits. *)
Lemma updated_updated v mask bits bits' :
  is_u32 v -> is_u32 bits ->
  updated (updated v mask bits) mask bits' = updated v mask bits'.
Proof.
  intros Hv Hb. apply Z.bits_inj'. intros i Hi.
  rewrite !updated_testbit by (done || by apply updated_u32).
  by destruct (Z.testbit mask i).
Qed.

Lemma reg_value_u32 st addr : is_u32 (reg_value st addr).
Proof. apply u32_range. Qed.

Lemma reg_value_stored st addr nv :
  is_u32 nv -> reg_value (stored addr nv st) addr = nv.
Proof.
  intros Hnv. unfold reg_value, stored. cbn [io].
  rewrite lookup_insert_eq. cbn. by apply u32_small.
Qed.

Section Writes.

Context `{Platform}.

Lemma cfg_pin_direct_run node f st :
  ofnode_read_s32_default node "pad-offset" (-1) <> -1 ->
  0 <= ofnode_read_s32_default node "mode-func" (-1) <= 7 ->
  syscon_get_by_driver_data X86_SYSCON_PINCONF = 0 ->
  mrfld_get_family_loop (priv st)
    (u32 (ofnode_read_s32_default node "pad-offset" (-1))) 0 (nfamilies (priv st))
  = Some f ->
  bufcfg_of f (u32 (ofnode_read_s32_default node "pad-offset" (-1))) <> 0 ->
  ofnode_read_bool node "protected" = false ->
  mrfld_pinctrl_cfg_pin node st
  = (0, stored (bufcfg_of f (u32 (ofnode_read_s32_default node "pad-offset" (-1))))
          (updated
             (reg_value st
                (bufcfg_of f (u32 (ofnode_read_s32_default node "pad-offset" (-1)))))
             MRFLD_PINMODE_MASK (ofnode_read_s32_default node "mode-func" (-1)))
          st).
Proof.
  intros Hp Hr Hsys Hl Hnz Hflag. rewrite (cfg_pin_valid _ _ Hp Hr). cbn zeta.
  rewrite Hflag, mrfld_pinconfig_run.
  by rewrite (mrfld_pinconfig_get_bufcfg_found _ _ _ Hsys Hl Hnz).
Qed.

(** X10.  After a direct write the register reads back with the mode in its
    low three bits and its other bits as before; no other register has
    changed, and neither has the family table. *)
Theorem cfg_pin_direct_read_back
    (node : ofnode) (f : mrfld_family) (other i : Z) (st : machine) :
  let pad_offset := ofnode_read_s32_default node "pad-offset" (-1) in
  let mode := ofnode_read_s32_default node "mode-func" (-1) in
  let addr := bufcfg_of f (u32 pad_offset) in
  let st' := (mrfld_pinctrl_cfg_pin node st).2 in
  pad_offset <> -1 -> 0 <= mode <= 7 ->
  syscon_get_by_driver_data X86_SYSCON_PINCONF = 0 ->
  mrfld_get_family_loop (priv st) (u32 pad_offset) 0 (nfamilies (priv st)) = Some f ->
  addr <> 0 ->
  ofnode_read_bool node "protected" = false ->
  3 <= i -> other <> addr ->
  Z.land (reg_value st' addr) 7 = mode
  /\ Z.testbit (reg_value st' addr) i = Z.testbit (reg_value st addr) i
  /\ io st' !! other = io st !! other
  /\ priv st' = priv st.
Proof.
  intros pad_offset mode addr st' Hp Hr Hsys Hl Hnz Hflag Hi Hother.
  unfold st'. rewrite (cfg_pin_direct_run node f st) by done. cbn [snd].
  fold pad_offset mode addr.
  pose proof (reg_value_u32 st addr) as Hv.
  assert (Hm : is_u32 mode) by (unfold is_u32, modulus; lia).
  rewrite reg_value_stored by (by apply updated_u32).
  split; [by apply updated_low3|]. split; [|split].
  - rewrite updated_testbit by (done || lia). unfold MRFLD_PINMODE_MASK.
    replace (Z.testbit 7 i) with false; [done|].
    symmetry. change 7 with (Z.ones 3). apply Z.ones_spec_high. lia.
  - unfold stored. cbn [io]. by rewrite lookup_insert_ne.
  - done.
Qed.

(** X11.  Two direct writes to one pin, one after the other, leave the
    registers as the second write alone would: the last mode wins, and
    writing a mode twice is writing it once. *)
Theorem cfg_pin_last_writer_wins
    (first second : ofnode) (f : mrfld_family) (st : machine) :
  let pad_offset := ofnode_read_s32_default second "pad-offset" (-1) in
  let addr := bufcfg_of f (u32 pad_offset) in
  ofnode_read_s32_default first "pad-offset" (-1) = pad_offset ->
  pad_offset <> -1 ->
  0 <= ofnode_read_s32_default first "mode-func" (-1) <= 7 ->
  0 <= ofnode_read_s32_default second "mode-func" (-1) <= 7 ->
  ofnode_read_bool first "protected" = false ->
  ofnode_read_bool second "protected" = false ->
  syscon_get_by_driver_data X86_SYSCON_PINCONF = 0 ->
  mrfld_get_family_loop (priv st) (u32 pad_offset) 0 (nfamilies (priv st)) = Some f ->
  addr <> 0 ->
  let st1 := (mrfld_pinctrl_cfg_pin first st).2 in
  (mrfld_pinctrl_cfg_pin second st1).1 = 0
  /\ io (mrfld_pinctrl_cfg_pin second st1).2
     = io (mrfld_pinctrl_cfg_pin second st).2.
Proof.
  intros pad_offset addr Hsame Hp Hr1 Hr2 Hf1 Hf2 Hsys Hl Hnz st1.
  unfold st1.
  rewrite (cfg_pin_direct_run first f st) by (rewrite ?Hsame; done).
  rewrite Hsame. fold addr. cbn [snd].
  rewrite (cfg_pin_direct_run second f (stored addr _ st)) by done.
  rewrite (cfg_pin_direct_run second f st) by done.
  fold pad_offset addr. cbn [fst snd]. split; [done|].
  pose proof (reg_value_u32 st addr) as Hv.
  assert (Hm1 : is_u32 (ofnode_read_s32_default first "mode-func" (-1)))
    by (unfold is_u32, modulus; lia).
  rewrite reg_value_stored by (by apply updated_u32).
  rewrite updated_updated by done.
  unfold stored. cbn [io]. apply insert_insert_eq.
Qed.

(** X12.  If the SCU does what an indirect write asks for (it stores the
    value at the target and reports 0), the protected path leaves the
    registers exactly as the direct path does, with the same status. *)
Theorem faithful_scu_same_registers (pin mask bits : Z) (st : machine) :
  (forall req regs,
      scu_cmd req = IPCMSG_INDIRECT_WRITE ->
      scu_ipc_raw_command req regs = (0, <[scu_dptr req := scu_in req]> regs)) ->
  (mrfld_pinconfig_protected pin mask bits st).1 = (mrfld_pinconfig pin mask bits st).1
  /\ io (mrfld_pinconfig_protected pin mask bits st).2
     = io (mrfld_pinconfig pin mask bits st).2.
Proof.
  intros Hscu. rewrite mrfld_pinconfig_run, mrfld_pinconfig_protected_run.
  destruct (mrfld_pinconfig_get_bufcfg_cases_family pin st)
    as [(ret & evs & -> & _)|(f & _ & _ & ->)]; [done|].
  cbn zeta. unfold relayed, stored. cbn [fst snd io].
  rewrite Hscu by done. cbn [fst snd scu_dptr scu_in indirect_write].
  by rewrite bufcfg_of_u32.
Qed.

End Writes.

(** ** Registers of distinct pins *)

(** X13.  In a table with disjoint ranges whose families hold 192 pins at
    most and carry distinct family numbers, two different pins never share a
    control register: 192 registers behind the offset 0x100 fill the 0x400
    bytes of a family exactly. *)
Theorem distinct_pins_distinct_registers
    (base : Z) (fams : list mrfld_family) (i j : nat) (f g : mrfld_family)
    (p q : Z) (st : machine) :
  table_ok fams = true ->
  fams !! i = Some f -> fams !! j = Some g ->
  covers f p -> covers g q -> p <> q ->
  npins f <= 192 -> npins g <= 192 ->
  (i <> j -> family_number f <> family_number g) ->
  0 <= base ->
  base + family_number f * 1024 + 0x100 + (p - pin_base f) * 4 < modulus ->
  base + family_number g * 1024 + 0x100 + (q - pin_base g) * 4 < modulus ->
  (mrfld_get_bufcfg (probed base fams) p st).1
  <> (mrfld_get_bufcfg (probed base fams) q st).1.
Proof.
  intros Hok Hi Hj Hp Hq Hne Hnf Hng Hnum Hbase Hfp Hfq.
  rewrite (mrfld_get_bufcfg_covered base fams i f p st) by done.
  rewrite (mrfld_get_bufcfg_covered base fams j g q st) by done.
  cbn [fst]. unfold covers in Hp, Hq.
  destruct (decide (i = j)) as [->|Hij].
  - rewrite Hi in Hj. injection Hj as <-. lia.
  - specialize (Hnum Hij). lia.
Qed.

(** ** Negative pin numbers *)

Section Negative.

Context `{Platform}.

(** X14.  A negative [pad-offset] other than -1 is not refused as such: it
    is passed on as the unsigned pin number [pad_offset + 2^32], which no
    family of the table of the source file contains, so the entry fails with
    [-EINVAL] after the family lookup, with the two log lines naming that
    pin, and no register is touched. *)
Theorem cfg_pin_negative_pad_offset (node : ofnode) (base : Z) (st : machine) :
  let pad_offset := ofnode_read_s32_default node "pad-offset" (-1) in
  let pin := pad_offset + modulus in
  priv st = probed base mrfld_families ->
  syscon_get_by_driver_data X86_SYSCON_PINCONF = 0 ->
  pad_offset < -1 ->
  0 <= ofnode_read_s32_default node "mode-func" (-1) <= 7 ->
  mrfld_pinctrl_cfg_pin node st
  = (- Z.pos EINVAL,
     logged [EvPrErr (FailedToFindFamily pin);
             EvPrErr (FailedToSetMode pin (- Z.pos EINVAL))] st).
Proof.
  intros pad_offset pin Hpriv Hsys Hneg Hmode.
  pose proof (ofnode_read_s32_default_range node "pad-offset") as Hrange.
  fold pad_offset in Hrange.
  assert (Hpin : u32 pad_offset = pin).
  { unfold u32, pin, modulus in *. symmetry.
    apply Z.mod_unique with (q := -1); lia. }
  assert (Hmiss : mrfld_get_family_loop (priv st) pin 0 (nfamilies (priv st)) = None).
  { rewrite Hpriv. cbn. unfold pin_in_family. cbn [pin_base npins set_regs].
    change (pin_base (MRFLD_FAMILY 3 37 56)) with 37.
    change (npins (MRFLD_FAMILY 3 37 56)) with 20.
    change (pin_base (MRFLD_FAMILY 7 101 114)) with 101.
    change (npins (MRFLD_FAMILY 7 101 114)) with 14.
    change (u32 (37 + 20)) with 57. change (u32 (101 + 14)) with 115.
    unfold pin, modulus in *.
    replace (pad_offset + 2 ^ 32 <? 57) with false by (symmetry; apply Z.ltb_ge; lia).
    replace (pad_offset + 2 ^ 32 <? 115) with false by (symmetry; apply Z.ltb_ge; lia).
    by rewrite !andb_false_r. }
  rewrite (cfg_pin_valid node st) by (fold pad_offset; lia || done).
  cbn zeta. fold pad_offset. rewrite Hpin.
  destruct (ofnode_read_bool node "protected");
    [rewrite mrfld_pinconfig_protected_run | rewrite mrfld_pinconfig_run];
    rewrite mrfld_pinconfig_get_bufcfg_missing by done;
    cbn [fst snd Z.eqb Z.opp]; by rewrite logged_app.
Qed.

End Negative.

(** ** The table and the other registers during a pass *)

Section Frame.

Context `{Platform}.

(** X15.  Processing an entry never modifies the family table, and after a
    pass the private data holds the table of the source file set up for the
    region of the device, whatever it held before and whatever the entries
    were. *)
Theorem tangier_pinctrl_probe_installs_table
    (nodes : list ofnode) (node : ofnode) (st : machine) :
  priv (mrfld_pinctrl_cfg_pin node st).2 = priv st
  /\ priv (tangier_pinctrl_probe nodes st).2
     = probed (syscon_get_first_range X86_SYSCON_PINCONF) mrfld_families.
Proof.
  split.
  - by destruct (cfg_pin_events node st) as (evs & _ & Hpriv & _).
  - rewrite probe_run. cbn [snd]. by rewrite probe_loop_priv.
Qed.

Lemma attempt_frame n st a :
  ofnode_read_bool n "protected" = false ->
  ~ pin_register (priv st) a ->
  io (attempt n st).2 !! a = io st !! a.
Proof.
  intros Hflag Hout. rewrite attempt_run. cbn [snd].
  assert (Hcfg : io (mrfld_pinctrl_cfg_pin n st).2 !! a = io st !! a).
  { destruct (cfg_pin_shape n st)
      as [(evs & _ & Hrun)|(f & Hl & _ & [(_ & Hrun)|(Htrue & _)])].
    - by rewrite Hrun.
    - rewrite Hrun. unfold stored. cbn [snd io].
      apply lookup_insert_ne. intros <-. apply Hout.
      by apply mrfld_get_family_loop_pin_register.
    - congruence. }
  by destruct (_ =? 0).
Qed.

Lemma probe_loop_frame nodes st a :
  Forall (fun n => ofnode_read_bool n "protected" = false) nodes ->
  ~ pin_register (priv st) a ->
  io (tangier_pinctrl_probe_loop nodes st).2 !! a = io st !! a.
Proof.
  intros Hall. revert st. induction Hall as [|n nodes Hn Hall IH]; intros st Hout; [done|].
  rewrite probe_loop_cons, IH by (by rewrite attempt_priv).
  by apply attempt_frame.
Qed.

(** X16.  A pass whose entries are all unprotected changes no register
    outside the two windows of the families of the source file (given that
    the region fits the 32-bit address space). *)
Theorem tangier_pinctrl_probe_frame
    (nodes : list ofnode) (addr : Z) (st : machine) :
  let base := syscon_get_first_range X86_SYSCON_PINCONF in
  0 <= base -> base + 0x2000 <= modulus ->
  Forall (fun n => ofnode_read_bool n "protected" = false) nodes ->
  ~ pin_window base addr ->
  io (tangier_pinctrl_probe nodes st).2 !! addr = io st !! addr.
Proof.
  intros base Hbase Hfit Hall Hout. rewrite probe_run. cbn [snd].
  rewrite probe_loop_frame; [done|done|].
  intros Hreg. apply Hout. by apply pin_register_window.
Qed.

End Frame.

(** * Further runs on the sample platform *)

(** A family of 16 pins from 0xFFFFFFF0 on: its range ends at 2^32, the sum
    wraps to 0 and no pin is ever found in it. *)
Lemma mrfld_get_family_wrapped_range_run :
  let f := {| family_number := 1; pin_base := 0xFFFFFFF0; npins := 0x10; regs := 0 |} in
  pin_in_family f 0xFFFFFFF5 = false
  /\ (mrfld_get_family (static_pinctrl [f]) 0xFFFFFFF5 power_on).1 <> Some f.
Proof.
  apply (mrfld_get_family_wrapped_range
           (static_pinctrl
              [{| family_number := 1; pin_base := 0xFFFFFFF0; npins := 0x10; regs := 0 |}])
           {| family_number := 1; pin_base := 0xFFFFFFF0; npins := 0x10; regs := 0 |}
           0xFFFFFFF5 power_on);
    vm_compute; (split; [discriminate | reflexivity]) || discriminate.
Defined.

(** The first family of the source file: 20 pins, 56 inside, 57 outside. *)
Lemma MRFLD_FAMILY_range_run :
  npins (MRFLD_FAMILY 3 37 56) = 56 - 37 + 1
  /\ pin_in_family (MRFLD_FAMILY 3 37 56) 56 = true
  /\ pin_in_family (MRFLD_FAMILY 3 37 56) 57 = false.
Proof.
  destruct (MRFLD_FAMILY_range 3 37 56 56) as (Hn & Hin);
    [vm_compute; split; discriminate | vm_compute; reflexivity |].
  split; [exact Hn|]. split; [|reflexivity].
  apply Hin. vm_compute. split; discriminate.
Defined.

(** A pass over three entries on the sample platform stays in the windows. *)
Lemma tangier_pinctrl_probe_stays_in_windows_run :
  exists evs,
    trace (@tangier_pinctrl_probe edison [sd_pin; stray_pin; i2c_pin] power_on).2
    = trace power_on ++ evs
    /\ Forall (fun e => forall a, event_addr e = Some a -> pin_window 0xff0c0000 a) evs.
Proof.
  apply (@tangier_pinctrl_probe_stays_in_windows edison
           [sd_pin; stray_pin; i2c_pin] power_on);
    [vm_compute; discriminate | vm_compute; discriminate].
Defined.

(** Without the device, a pass over a direct and a protected entry leaves
    the registers alone. *)
Lemma no_device_no_access_run :
  @mrfld_pinconfig edison_no_device 37 7 5 booted = (-19, booted)
  /\ io (@tangier_pinctrl_probe edison_no_device [sd_pin; i2c_pin] booted).2 = io booted.
Proof.
  destruct (@no_device_no_access edison_no_device [sd_pin; i2c_pin] 37 7 5 booted)
    as (Hd & _ & Hio & _); [vm_compute; discriminate|].
  split; [exact Hd | exact Hio].
Defined.

(** Pin 37 set to mode 5: the register reads back 0xABCD1235, its neighbour
    is as before. *)
Lemma cfg_pin_direct_read_back_run :
  let st' := (@mrfld_pinctrl_cfg_pin edison sd_pin booted).2 in
  Z.land (reg_value st' 0xff0c0d00) 7 = 5
  /\ Z.testbit (reg_value st' 0xff0c0d00) 4 = Z.testbit (reg_value booted 0xff0c0d00) 4
  /\ io st' !! 0xff0c0d04 = io booted !! 0xff0c0d04.
Proof.
  destruct (@cfg_pin_direct_read_back edison sd_pin
              {| family_number := 3; pin_base := 37; npins := 20; regs := 0xff0c0c00 |}
              0xff0c0d04 4 booted)
    as (Hlow & Hbit & Hother & _);
    [vm_compute; discriminate | vm_compute; split; discriminate
    | reflexivity | reflexivity | vm_compute; discriminate | reflexivity
    | vm_compute; discriminate | vm_compute; discriminate |].
  split; [exact Hlow|]. split; [exact Hbit | exact Hother].
Defined.

(** Mode 5, then mode 2 on pin 37: as mode 2 alone. *)
Lemma cfg_pin_last_writer_wins_run :
  io (@mrfld_pinctrl_cfg_pin edison sd_pin_again
        (@mrfld_pinctrl_cfg_pin edison sd_pin booted).2).2
  = io (@mrfld_pinctrl_cfg_pin edison sd_pin_again booted).2.
Proof.
  destruct (@cfg_pin_last_writer_wins edison sd_pin sd_pin_again
              {| family_number := 3; pin_base := 37; npins := 20; regs := 0xff0c0c00 |}
              booted)
    as (_ & Hio);
    [reflexivity | vm_compute; discriminate
    | vm_compute; split; discriminate | vm_compute; split; discriminate
    | reflexivity | reflexivity | reflexivity | reflexivity
    | vm_compute; discriminate |].
  exact Hio.
Defined.

(** The SCU of the sample platform performs the indirect write. *)
Lemma faithful_scu_same_registers_run :
  io (@mrfld_pinconfig_protected edison 101 7 2 booted).2
  = io (@mrfld_pinconfig edison 101 7 2 booted).2.
Proof.
  destruct (@faithful_scu_same_registers edison 101 7 2 booted) as (_ & Hio).
  - intros req regs Hcmd. cbn in Hcmd. cbn. unfold edison_scu.
    rewrite Hcmd. reflexivity.
  - exact Hio.
Defined.

(** The last pin of family 3 and the first of family 7. *)
Lemma distinct_pins_distinct_registers_run :
  (mrfld_get_bufcfg edison_pinctrl 56 booted).1
  <> (mrfld_get_bufcfg edison_pinctrl 101 booted).1.
Proof.
  apply (distinct_pins_distinct_registers 0xff0c0000 mrfld_families 0 1
           (MRFLD_FAMILY 3 37 56) (MRFLD_FAMILY 7 101 114) 56 101 booted);
    try reflexivity;
    try (vm_compute; split; [discriminate | reflexivity]);
    try (vm_compute; discriminate).
Defined.

(** [pad-offset = -2] is looked up as pin 4294967294. *)
Lemma cfg_pin_negative_pad_offset_run :
  @mrfld_pinctrl_cfg_pin edison negative_pad_pin booted
  = (-22, logged [EvPrErr (FailedToFindFamily 4294967294);
                  EvPrErr (FailedToSetMode 4294967294 (-22))] booted).
Proof.
  apply (@cfg_pin_negative_pad_offset edison negative_pad_pin 0xff0c0000 booted);
    [reflexivity | reflexivity | vm_compute; reflexivity
    | vm_compute; split; discriminate].
Defined.

(** A pass over two direct entries, one of them for a pin of no family,
    leaves the register just below the first window as it was. *)
Lemma tangier_pinctrl_probe_frame_run :
  io (@tangier_pinctrl_probe edison [sd_pin; stray_pin] booted).2 !! 0xff0c0cfc
  = io booted !! 0xff0c0cfc.
Proof.
  apply (@tangier_pinctrl_probe_frame edison [sd_pin; stray_pin] 0xff0c0cfc booted);
    [vm_compute; discriminate | vm_compute; discriminate
    | repeat constructor
    | vm_compute; intros [[Hlo Hhi]|[Hlo Hhi]]; by apply Hlo].
Defined.
